(** * The JSONP client backend of the vendored HTTP client

    A shallow embedding of [JsonpClientBackend] (the file jsonp.ts of the
    vendored @angular/common/http package): the module-level counter
    [nextRequestId], the module-level [foreignDocument], the callback map
    (the [window] object in a browser), and the closures that one
    subscription to the observable returned by [handle] creates.

    The page is single threaded. Everything that happens to the backend is
    one of a handful of inputs (a request is subscribed, a script calls a
    registered callback, the browser dispatches [load] or [error] on a
    script node, a microtask runs, the consumer unsubscribes), and each
    input runs one of the functions of the source to completion. *)

From stdpp Require Import base strings list gmap pretty.
From Stdlib Require Import Ascii NArith Lia.

(** ** Values *)

(** The JavaScript values that cross the backend: the payload a script
    hands to the callback, and the [error] object of an error response. *)
Inductive JsValue : Type :=
  | JsUndefined
  | JsNull
  | JsNumber (z : Z)
  | JsString (s : string)
  | JsErrorObject (message : string)   (* new Error(message) *)
  | JsDomEvent (type : string).        (* the event object given to a listener *)

(** A call [f(a)] binds the parameter to [a]; a call [f()] binds it to
    [undefined]. *)
Definition js_arg (a : option JsValue) : JsValue :=
  match a with
  | Some v => v
  | None => JsUndefined
  end.

(** [nextRequestId] is a JavaScript number, a double that starts at 0 and
    is only ever incremented. Below [2^53] the increment is exact. At
    [2^53] the sum [2^53 + 1] is not a double and rounds back (ties to
    even) to [2^53], so the counter stays there; it can take no other
    value. *)
Definition MAX_EXACT : N := 2 ^ 53.

Definition js_increment (n : N) : N :=
  if (n <? MAX_EXACT)%N then (n + 1)%N else n.

(** ** Requests, responses and notifications *)

Record HttpRequest : Type := {
  method : string;
  responseType : string;
  headers : list string;        (* req.headers.keys() *)
  urlWithParams : string
}.

(** Modelled from the spec: the classes [HttpResponse] and
    [HttpErrorResponse] are imported from ./response, which is not among
    the sources. The spec describes every outcome as an envelope that
    carries a URL, a status code, a status text and a body or an underlying
    cause; the two records hold these fields. An error response holds
    them with the values the backend passes to its constructor. *)
Record HttpResponse : Type := {
  resp_body : JsValue;
  resp_status : N;
  resp_statusText : string;
  resp_url : string
}.

Record HttpErrorResponse : Type := {
  err_error : JsValue;
  err_status : N;
  err_statusText : string;
  err_url : string
}.

(** Modelled from the spec: the constructor of [HttpResponse], which is
    in ./response with the class. The spec has the success event carry
    the received body, "which may itself be the sentinel no content value
    if the callback was invoked with no argument". The source names that
    value where it declares the body ([let body = null], "the response
    object, if one has been received, or null otherwise") and where it
    builds the response ("body either contains the response body or null
    if none was returned"). So the response built from a body that is
    [undefined] has the body [null], and the response built from any other
    body has that body; status, status text and URL are the ones given.
    [init] is the object literal handed to the constructor. *)
Definition new_HttpResponse (init : HttpResponse) : HttpResponse :=
  {| resp_body := match resp_body init with
                  | JsUndefined => JsNull
                  | given => given
                  end;
     resp_status := resp_status init;
     resp_statusText := resp_statusText init;
     resp_url := resp_url init |}.

Inductive HttpEvent : Type :=
  | Sent                              (* {type: HttpEventType.Sent} *)
  | Response (r : HttpResponse).

(** What an observer can be told. *)
Inductive Notification : Type :=
  | NextN (ev : HttpEvent)
  | ErrorN (err : HttpErrorResponse)
  | CompleteN.

Definition JSONP_ERR_NO_CALLBACK : string :=
  "JSONP injected script did not invoke callback.".
Definition JSONP_ERR_WRONG_METHOD : string :=
  "JSONP requests must use JSONP request method.".
Definition JSONP_ERR_WRONG_RESPONSE_TYPE : string :=
  "JSONP requests must use Json response type.".
Definition JSONP_ERR_HEADERS_NOT_SUPPORTED : string :=
  "JSONP requests do not support headers.".

(** ** The page *)

Inductive Document : Type :=
  | MainDocument                      (* this.document *)
  | CreatedDocument (k : nat).        (* the k-th result of createHTMLDocument() *)

Inductive Element : Type :=
  | Body.                             (* this.document.body *)

Record ScriptNode : Type := {
  src : string;
  parentNode : option Element;
  ownerDocument : Document
}.

(** The variables one run of the subscribe function closes over, together
    with the subscriber it was given. [closed] and [emitted] are the
    RxJS subscriber: whether it still accepts notifications, and the
    notifications it has delivered to the consumer, oldest first. *)
Record Exchange : Type := {
  callback : string;
  url : string;
  node : ScriptNode;
  body : JsValue;
  finished : bool;
  closed : bool;
  emitted : list Notification
}.

(** The callback map holds closures; a closure is identified by the index
    of the exchange whose variables it captured. [microtasks] is the queue
    of functions scheduled with [resolvedPromise.then], each again
    identified by its exchange. *)
Record World : Type := {
  nextRequestId : N;
  foreignDocument : option Document;
  documentsCreated : nat;
  callbackMap : gmap string nat;
  exchanges : list Exchange;
  microtasks : list nat
}.

Definition initial_world : World :=
  {| nextRequestId := 0; foreignDocument := None; documentsCreated := 0%nat;
     callbackMap := ∅; exchanges := []; microtasks := [] |}.

Definition with_nextRequestId (n : N) (w : World) : World :=
  {| nextRequestId := n; foreignDocument := foreignDocument w;
     documentsCreated := documentsCreated w; callbackMap := callbackMap w;
     exchanges := exchanges w; microtasks := microtasks w |}.

Definition with_foreignDocument (d : Document) (w : World) : World :=
  {| nextRequestId := nextRequestId w; foreignDocument := Some d;
     documentsCreated := S (documentsCreated w); callbackMap := callbackMap w;
     exchanges := exchanges w; microtasks := microtasks w |}.

Definition with_callbackMap (m : gmap string nat) (w : World) : World :=
  {| nextRequestId := nextRequestId w; foreignDocument := foreignDocument w;
     documentsCreated := documentsCreated w; callbackMap := m;
     exchanges := exchanges w; microtasks := microtasks w |}.

Definition with_exchanges (xs : list Exchange) (w : World) : World :=
  {| nextRequestId := nextRequestId w; foreignDocument := foreignDocument w;
     documentsCreated := documentsCreated w; callbackMap := callbackMap w;
     exchanges := xs; microtasks := microtasks w |}.

Definition with_microtasks (q : list nat) (w : World) : World :=
  {| nextRequestId := nextRequestId w; foreignDocument := foreignDocument w;
     documentsCreated := documentsCreated w; callbackMap := callbackMap w;
     exchanges := exchanges w; microtasks := q |}.

Definition update_exchange (e : nat) (f : Exchange → Exchange) (w : World) : World :=
  with_exchanges (alter f e (exchanges w)) w.

Definition with_node (nd : ScriptNode) (x : Exchange) : Exchange :=
  {| callback := callback x; url := url x; node := nd; body := body x;
     finished := finished x; closed := closed x; emitted := emitted x |}.

Definition with_received (data : JsValue) (x : Exchange) : Exchange :=
  {| callback := callback x; url := url x; node := node x; body := data;
     finished := true; closed := closed x; emitted := emitted x |}.

Definition deliver (n : Notification) (x : Exchange) : Exchange :=
  {| callback := callback x; url := url x; node := node x; body := body x;
     finished := finished x; closed := closed x; emitted := emitted x ++ [n] |}.

Definition close (x : Exchange) : Exchange :=
  {| callback := callback x; url := url x; node := node x; body := body x;
     finished := finished x; closed := true; emitted := emitted x |}.

(** ** DOM operations on a script node *)

(** [parent.appendChild(node)] *)
Definition appendChild (nd : ScriptNode) : ScriptNode :=
  {| src := src nd; parentNode := Some Body; ownerDocument := ownerDocument nd |}.

(** [node.parentNode.removeChild(node)] *)
Definition removeChild (nd : ScriptNode) : ScriptNode :=
  {| src := src nd; parentNode := None; ownerDocument := ownerDocument nd |}.

(** [doc.adoptNode(node)]: the node leaves its parent and changes owner. *)
Definition adoptNode (doc : Document) (nd : ScriptNode) : ScriptNode :=
  {| src := src nd; parentNode := None; ownerDocument := doc |}.

(** ** nextCallback *)

Definition nextCallback (w : World) : string * World :=
  ("ng_jsonp_callback_" +:+ pretty (nextRequestId w),
   with_nextRequestId (js_increment (nextRequestId w)) w).

(** ** The URL rewrite

    [req.urlWithParams.replace(/=JSONP_CALLBACK(&|$)/, `=${callback}$1`)].
    The expression has no [g] flag, so the leftmost match is replaced and
    nothing else. The only [$] of the replacement text is the one of [$1],
    a callback name being [ng_jsonp_callback_] and digits. *)

Fixpoint strip_prefix (p s : string) : option string :=
  match p, s with
  | EmptyString, _ => Some s
  | String a p', String b s' => if decide (a = b) then strip_prefix p' s' else None
  | String _ _, EmptyString => None
  end.

(** The regular expression tried at the start of [s]: the group [(&|$)]
    and what follows the match. *)
Definition match_placeholder (s : string) : option (string * string) :=
  match strip_prefix "=JSONP_CALLBACK" s with
  | Some (String "&"%char rest) => Some ("&", rest)
  | Some EmptyString => Some ("", "")
  | _ => None
  end.

Fixpoint replace_placeholder (cb : string) (s : string) : string :=
  match match_placeholder s with
  | Some (group, rest) => "=" +:+ cb +:+ group +:+ rest
  | None =>
      match s with
      | EmptyString => EmptyString
      | String c s' => String c (replace_placeholder cb s')
      end
  end.

(** ** Cleanup, cancellation and the subscriber *)

(** [if (node.parentNode) { node.parentNode.removeChild(node); }] *)
Definition remove_if_attached (nd : ScriptNode) : ScriptNode :=
  match parentNode nd with
  | Some _ => removeChild nd
  | None => nd
  end.

(** cleanup() *)
Definition cleanup (e : nat) (w : World) : World :=
  match exchanges w !! e with
  | None => w
  | Some x =>
      let w1 := update_exchange e (fun x => with_node (remove_if_attached (node x)) x) w in
      with_callbackMap (delete (callback x) (callbackMap w1)) w1
  end.

(** [if (!foreignDocument) { foreignDocument = createHTMLDocument(); }] *)
Definition ensure_foreignDocument (w : World) : World :=
  match foreignDocument w with
  | Some _ => w
  | None => with_foreignDocument (CreatedDocument (documentsCreated w)) w
  end.

(** removeListeners(script), for the script node of exchange [e] *)
Definition removeListeners (e : nat) (w : World) : World :=
  let w1 := ensure_foreignDocument w in
  match foreignDocument w1 with
  | Some doc => update_exchange e (fun x => with_node (adoptNode doc (node x)) x) w1
  | None => w1
  end.

(** The cancellation handler that the subscribe function returns. *)
Definition cancel (e : nat) (w : World) : World :=
  match exchanges w !! e with
  | None => w
  | Some x =>
      let w1 := if negb (finished x) then removeListeners e w else w in
      cleanup e w1
  end.

(** Modelled from the spec: [Observable] and the subscriber handed to the
    subscribe function come from rxjs, which is not among the sources.
    The spec has the stream deliver [Sent] and then one terminal event,
    nothing after a terminal event and nothing after cancellation, and has
    the finalizer of the subscription run on every exit (value, error,
    cancellation). So: [next] is dropped once the subscriber is closed;
    [error] and [complete] are dropped once it is closed, and otherwise
    are delivered, close the subscriber, and run the cancellation handler
    that the subscribe function returned; [unsubscribe] closes the
    subscriber and runs that handler, unless it is closed already. An
    exchange that does not exist counts as closed. *)
Definition is_closed (e : nat) (w : World) : bool :=
  match exchanges w !! e with
  | Some x => closed x
  | None => true
  end.

Definition observer_next (e : nat) (ev : HttpEvent) (w : World) : World :=
  if is_closed e w then w else update_exchange e (deliver (NextN ev)) w.

Definition observer_error (e : nat) (err : HttpErrorResponse) (w : World) : World :=
  if is_closed e w then w
  else cancel e (update_exchange e (fun x => close (deliver (ErrorN err) x)) w).

Definition observer_complete (e : nat) (w : World) : World :=
  if is_closed e w then w
  else cancel e (update_exchange e (fun x => close (deliver CompleteN x)) w).

Definition unsubscribe (e : nat) (w : World) : World :=
  if is_closed e w then w else cancel e (update_exchange e close w).

(** ** handle and the closures of one subscription *)

Inductive Thrown : Type :=
  | ThrowError (message : string).    (* throw new Error(message) *)

(** The observable closes over the request. *)
Record Observable : Type := { observed : HttpRequest }.

Definition handle (req : HttpRequest) (w : World) : (Thrown + Observable) * World :=
  if negb (bool_decide (method req = "JSONP")) then
    (inl (ThrowError JSONP_ERR_WRONG_METHOD), w)
  else if negb (bool_decide (responseType req = "json")) then
    (inl (ThrowError JSONP_ERR_WRONG_RESPONSE_TYPE), w)
  else if (0 <? length (headers req)) then
    (inl (ThrowError JSONP_ERR_HEADERS_NOT_SUPPORTED), w)
  else
    (inr {| observed := req |}, w).

(** The function stored in [callbackMap[callback]] by exchange [e]. *)
Definition response_callback (e : nat) (data : JsValue) (w : World) : World :=
  match exchanges w !! e with
  | None => w
  | Some x =>
      update_exchange e (with_received data)
        (with_callbackMap (delete (callback x) (callbackMap w)) w)
  end.

(** onLoad only schedules the check. *)
Definition onLoad (e : nat) (w : World) : World :=
  with_microtasks (microtasks w ++ [e]) w.

(** The function given to [resolvedPromise.then] by onLoad. *)
Definition onLoad_deferred (e : nat) (w : World) : World :=
  let w1 := cleanup e w in
  match exchanges w1 !! e with
  | None => w1
  | Some x =>
      if negb (finished x) then
        observer_error e
          {| err_url := url x; err_status := 0; err_statusText := "JSONP Error";
             err_error := JsErrorObject JSONP_ERR_NO_CALLBACK |} w1
      else
        observer_complete e
          (observer_next e
             (Response
                (new_HttpResponse {| resp_body := body x; resp_status := 200;
                                     resp_statusText := "OK"; resp_url := url x |}))
             w1)
  end.

(** onError(error) *)
Definition onError (e : nat) (error : JsValue) (w : World) : World :=
  let w1 := cleanup e w in
  match exchanges w1 !! e with
  | None => w1
  | Some x =>
      observer_error e
        {| err_error := error; err_status := 0; err_statusText := "JSONP Error";
           err_url := url x |} w1
  end.

(** The subscribe function of the observable; the new exchange takes the
    next free index, which is returned with the new world. *)
Definition subscribe (obs : Observable) (w : World) : nat * World :=
  let req := observed obs in
  let '(cb, w1) := nextCallback w in
  let u := replace_placeholder cb (urlWithParams req) in
  let e := length (exchanges w1) in
  let x := {| callback := cb; url := u;
              node := {| src := u; parentNode := None; ownerDocument := MainDocument |};
              body := JsNull; finished := false;
              closed := false; emitted := [] |} in
  let w2 := with_exchanges (exchanges w1 ++ [x]) w1 in
  let w3 := with_callbackMap (<[cb := e]> (callbackMap w2)) w2 in
  let w4 := update_exchange e (fun x => with_node (appendChild (node x)) x) w3 in
  (e, observer_next e Sent w4).

(** ** Inputs and runs *)

(** What can happen on the page: [handle(req).subscribe(observer)]; a
    script evaluates [callbackMap[name](arg)], or [callbackMap[name]()];
    the browser dispatches [load], or [error] with an event object, on the
    script node of an exchange; the oldest scheduled microtask runs; the
    consumer of an exchange unsubscribes. Inputs may come in any order. *)
Inductive Input : Type :=
  | Request (req : HttpRequest)
  | ScriptCalls (name : string) (arg : option JsValue)
  | LoadEvent (e : nat)
  | ErrorEvent (e : nat) (error : JsValue)
  | Microtask
  | Unsubscribe (e : nat).

Definition step (i : Input) (w : World) : World :=
  match i with
  | Request req =>
      match handle req w with
      | (inl _, w') => w'
      | (inr obs, w') => (subscribe obs w').2
      end
  | ScriptCalls name arg =>
      match callbackMap w !! name with
      | Some e => response_callback e (js_arg arg) w
      | None => w            (* TypeError in the calling script *)
      end
  | LoadEvent e =>
      match exchanges w !! e with
      | Some _ => onLoad e w
      | None => w
      end
  | ErrorEvent e error => onError e error w
  | Microtask =>
      match microtasks w with
      | [] => w
      | e :: q => onLoad_deferred e (with_microtasks q w)
      end
  | Unsubscribe e => unsubscribe e w
  end.

(** The inputs of [tr] one after the other, first to last. *)
Definition run (tr : list Input) (w : World) : World :=
  foldl (fun w i => step i w) w tr.

(** What the consumer of exchange [e] has received so far. *)
Definition emitted_by (e : nat) (w : World) : list Notification :=
  match exchanges w !! e with
  | Some x => emitted x
  | None => []
  end.

(** ** The interceptor in front of the backend *)

(** [jsonpInterceptorFn(req, next)]: what it returns is what [handle]
    throws or returns, or what [next] returns. *)
Definition jsonpInterceptorFn {R : Type} (req : HttpRequest) (next : HttpRequest → R)
    (w : World) : (Thrown + (Observable + R)) * World :=
  if bool_decide (method req = "JSONP") then
    match handle req w with
    | (inl thrown, w') => (inl thrown, w')
    | (inr obs, w') => (inr (inl obs), w')
    end
  else (inr (inr (next req)), w).

(** * The XSRF token extractor and its interceptor *)

Module Xsrf.

Definition XSRF_DEFAULT_COOKIE_NAME : string := "XSRF-TOKEN".
Definition XSRF_DEFAULT_HEADER_NAME : string := "X-XSRF-TOKEN".

(** [parseCookieValue] is imported from @angular/common and is not among
    the sources; the extractor is modelled over any function that takes a
    cookie string and a cookie name and returns a string or [null]. *)
Class CookieParser := parseCookieValue : string → string → option string.

(** [HttpXsrfCookieExtractor]: the fields of the object, the cookie of the
    document it holds among them. [doc.cookie] may be missing. *)
Record HttpXsrfCookieExtractor : Type := {
  doc_cookie : option string;
  platform : string;
  cookieName : string;
  lastCookieString : string;
  lastToken : option string;
  parseCount : N
}.

(** [new HttpXsrfCookieExtractor(doc, platform, cookieName)] *)
Definition new_extractor (cookie : option string) (platform cookieName : string)
    : HttpXsrfCookieExtractor :=
  {| doc_cookie := cookie; platform := platform; cookieName := cookieName;
     lastCookieString := ""; lastToken := None; parseCount := 0 |}.

(** The page assigns [document.cookie]. *)
Definition with_cookie (cookie : option string) (x : HttpXsrfCookieExtractor)
    : HttpXsrfCookieExtractor :=
  {| doc_cookie := cookie; platform := platform x; cookieName := cookieName x;
     lastCookieString := lastCookieString x; lastToken := lastToken x;
     parseCount := parseCount x |}.

(** [this.doc.cookie || ''] *)
Definition cookieString (x : HttpXsrfCookieExtractor) : string :=
  match doc_cookie x with
  | Some c => c
  | None => ""
  end.

Definition getToken `{CookieParser} (x : HttpXsrfCookieExtractor)
    : option string * HttpXsrfCookieExtractor :=
  if bool_decide (platform x = "server") then (None, x)
  else
    let x' :=
      if negb (bool_decide (cookieString x = lastCookieString x)) then
        {| doc_cookie := doc_cookie x; platform := platform x;
           cookieName := cookieName x;
           parseCount := js_increment (parseCount x);
           lastToken := parseCookieValue (cookieString x) (cookieName x);
           lastCookieString := cookieString x |}
      else x in
    (lastToken x', x').

(** [HttpHeaders] is not among the sources. The interceptor uses two of
    its methods, [has] and [set]; it is modelled over any type that has
    them. *)
Class HttpHeaders (H : Type) := {
  has : string → H → bool;
  set : string → string → H → H
}.

(** The fields of a request that the interceptor reads. *)
Record HttpRequest (H : Type) : Type := {
  method : string;
  url : string;
  headers : H
}.
Arguments method {H} _.
Arguments url {H} _.
Arguments headers {H} _.

(** [req.clone({headers})] *)
Definition clone {H : Type} (req : HttpRequest H) (hs : H) : HttpRequest H :=
  {| method := method req; url := url req; headers := hs |}.

(** [HttpXsrfTokenExtractor], the abstract class that is injected. *)
Class HttpXsrfTokenExtractor (S : Type) := extract : S → option string * S.

#[export] Instance cookie_extractor `{CookieParser}
    : HttpXsrfTokenExtractor HttpXsrfCookieExtractor := getToken.

(** [String.prototype.toLowerCase], on the ASCII letters. The lowered URL
    is only tested for the prefixes [http://] and [https://], and no
    letter outside ASCII lowers to a character of these. *)
Definition ascii_toLowerCase (c : ascii) : ascii :=
  let n := nat_of_ascii c in
  if (65 <=? n) && (n <=? 90) then ascii_of_nat (n + 32) else c.

Fixpoint toLowerCase (s : string) : string :=
  match s with
  | EmptyString => EmptyString
  | String c s' => String (ascii_toLowerCase c) (toLowerCase s')
  end.

(** [s.startsWith(p)] *)
Definition startsWith (s p : string) : bool :=
  match strip_prefix p s with
  | Some _ => true
  | None => false
  end.

(** [xsrfInterceptorFn(req, next)], with the injected [XSRF_ENABLED] and
    [XSRF_HEADER_NAME] as arguments and the injected extractor as state. *)
Definition xsrfInterceptorFn {H S R : Type} `{HttpHeaders H} `{HttpXsrfTokenExtractor S}
    (XSRF_ENABLED : bool) (XSRF_HEADER_NAME : string)
    (req : HttpRequest H) (next : HttpRequest H → R) (st : S) : R * S :=
  let lcUrl := toLowerCase (url req) in
  if negb XSRF_ENABLED
     || bool_decide (method req = "GET") || bool_decide (method req = "HEAD")
     || startsWith lcUrl "http://" || startsWith lcUrl "https://"
  then (next req, st)
  else
    let '(token, st') := extract st in
    let headerName := XSRF_HEADER_NAME in
    match token with
    | Some t =>
        if negb (has headerName (headers req))
        then (next (clone req (set headerName t (headers req))), st')
        else (next req, st')
    | None => (next req, st')
    end.

End Xsrf.

(** * Vocabulary of the properties *)

(** ** Placeholders in a URL *)

(** The placeholder stands in [s] right after [pre]: the literal text, then
    either an ampersand or the end of the string. [delim] is the delimiter
    that was met and [post] what follows it. *)
Definition placeholder_at (pre delim post s : string) : Prop :=
  s = pre +:+ "=JSONP_CALLBACK" +:+ delim +:+ post
  ∧ (delim = "&" ∨ (delim = "" ∧ post = "")).

(** The leftmost placeholder of [s], when there is one: what precedes it,
    its delimiter, and what follows. *)
Fixpoint find_placeholder (s : string) : option (string * string * string) :=
  match match_placeholder s with
  | Some (delim, post) => Some (EmptyString, delim, post)
  | None =>
      match s with
      | EmptyString => None
      | String c s' =>
          match find_placeholder s' with
          | Some (pre, delim, post) => Some (String c pre, delim, post)
          | None => None
          end
      end
  end.

(** No character of [s] is a dollar sign. *)
Fixpoint no_dollar (s : string) : bool :=
  match s with
  | EmptyString => true
  | String c s' => negb (Ascii.eqb c "$") && no_dollar s'
  end.

(** ** Worlds and exchanges after an operation *)

(** The world in which exchange [e] has become [y]. *)
Definition set_exchange (e : nat) (y : Exchange) (w : World) : World :=
  with_exchanges (<[e := y]> (exchanges w)) w.

(** An exchange after cleanup, and after its node has been adopted. *)
Definition cleaned (x : Exchange) : Exchange :=
  with_node (remove_if_attached (node x)) x.

(** The document [removeListeners] adopts into: the existing foreign
    document, or else the one it is about to create. *)
Definition the_foreign_document (w : World) : Document :=
  match foreignDocument w with
  | Some d => d
  | None => CreatedDocument (documentsCreated w)
  end.

Definition adopted (doc : Document) (x : Exchange) : Exchange :=
  with_node (adoptNode doc (node x)) x.

(** The world after the cancellation handler has run for an exchange whose
    variables are [y]. *)
Definition after_cancel (e : nat) (y : Exchange) (w : World) : World :=
  if finished y then
    set_exchange e (cleaned y)
      (with_callbackMap (delete (callback y) (callbackMap w)) w)
  else
    set_exchange e (adopted (the_foreign_document w) y)
      (with_callbackMap (delete (callback y) (callbackMap w)) (ensure_foreignDocument w)).

(** The three envelopes the closures build. *)
Definition no_callback_error (x : Exchange) : HttpErrorResponse :=
  {| err_error := JsErrorObject JSONP_ERR_NO_CALLBACK; err_status := 0;
     err_statusText := "JSONP Error"; err_url := url x |}.

Definition load_error (error : JsValue) (x : Exchange) : HttpErrorResponse :=
  {| err_error := error; err_status := 0; err_statusText := "JSONP Error";
     err_url := url x |}.

Definition ok_response (x : Exchange) : HttpResponse :=
  new_HttpResponse
    {| resp_body := body x; resp_status := 200; resp_statusText := "OK";
       resp_url := url x |}.

(** An exchange as its subscription leaves it, and the world after the
    subscription of [req]. *)
Definition new_exchange (cb u : string) : Exchange :=
  {| callback := cb; url := u;
     node := {| src := u; parentNode := Some Body; ownerDocument := MainDocument |};
     body := JsNull; finished := false; closed := false; emitted := [NextN Sent] |}.

Definition callback_name (n : N) : string := "ng_jsonp_callback_" +:+ pretty n.

Definition subscribed (req : HttpRequest) (w : World) : World :=
  {| nextRequestId := js_increment (nextRequestId w);
     foreignDocument := foreignDocument w;
     documentsCreated := documentsCreated w;
     callbackMap :=
       <[callback_name (nextRequestId w) := length (exchanges w)]> (callbackMap w);
     exchanges :=
       exchanges w ++
       [new_exchange (callback_name (nextRequestId w))
          (replace_placeholder (callback_name (nextRequestId w)) (urlWithParams req))];
     microtasks := microtasks w |}.

(** ** How exchanges and worlds may evolve, and what every run keeps *)

(** The notifications that can end a subscription: none (the consumer
    left), an error, or a response followed by the completion. *)
Definition terminal (l : list Notification) : Prop :=
  l = [] ∨ (∃ err, l = [ErrorN err]) ∨ (∃ r, l = [NextN (Response r); CompleteN]).

(** What may become of an exchange: its name and URL stay; its subscriber
    either keeps its state (and the script node of a live exchange is not
    touched) or closes, delivering a terminal sequence. *)
Definition exchange_evolves (x x' : Exchange) : Prop :=
  callback x' = callback x ∧ url x' = url x
  ∧ ((closed x' = closed x ∧ emitted x' = emitted x
      ∧ (closed x = false → node x' = node x))
     ∨ (closed x = false ∧ closed x' = true
        ∧ ∃ l, terminal l ∧ emitted x' = emitted x ++ l)).

(** The foreign document is either left alone or created, once. *)
Definition documents_evolve (w w' : World) : Prop :=
  (foreignDocument w' = foreignDocument w ∧ documentsCreated w' = documentsCreated w)
  ∨ (foreignDocument w = None
     ∧ foreignDocument w' = Some (CreatedDocument (documentsCreated w))
     ∧ documentsCreated w' = S (documentsCreated w)).

(** A world after an input that subscribes nothing. *)
Definition world_evolves (w w' : World) : Prop :=
  nextRequestId w' = nextRequestId w
  ∧ length (exchanges w') = length (exchanges w)
  ∧ (∀ i x, exchanges w !! i = Some x →
       ∃ x', exchanges w' !! i = Some x' ∧ exchange_evolves x x')
  ∧ documents_evolve w w'.

(** A live exchange has delivered [Sent] and nothing else, and its script
    node is on the page; a closed one has delivered [Sent] and then at most
    one terminal sequence. *)
Definition exchange_ok (x : Exchange) : Prop :=
  (closed x = false →
     emitted x = [NextN Sent]
     ∧ node x = {| src := url x; parentNode := Some Body; ownerDocument := MainDocument |})
  ∧ (emitted x = [NextN Sent]
     ∨ (∃ err, emitted x = [NextN Sent; ErrorN err])
     ∨ (∃ r, emitted x = [NextN Sent; NextN (Response r); CompleteN])).

(** Every exchange of the world is in such a state. *)
Definition world_ok (w : World) : Prop :=
  ∀ e x, exchanges w !! e = Some x → exchange_ok x.

(** The foreign document is created at most once. *)
Definition documents_ok (w : World) : Prop :=
  (foreignDocument w = None ∧ documentsCreated w = 0)
  ∨ (foreignDocument w = Some (CreatedDocument 0) ∧ documentsCreated w = 1).

(** From the initial world the counter is the number of exchanges, capped
    at [2^53], and the exchange of index [i] was named after the value the
    counter had then. *)
Definition names_ok (w : World) : Prop :=
  nextRequestId w = N.min (N.of_nat (length (exchanges w))) MAX_EXACT
  ∧ ∀ i x, exchanges w !! i = Some x →
      callback x = callback_name (N.min (N.of_nat i) MAX_EXACT).

(** Every entry of the callback map belongs to a live exchange of that name
    whose callback has not run. *)
Definition registry_ok (w : World) : Prop :=
  ∀ name e, callbackMap w !! name = Some e →
    ∃ x, exchanges w !! e = Some x
         ∧ callback x = name ∧ closed x = false ∧ finished x = false.

(** ** Sample requests and worlds *)

Definition search_request : HttpRequest :=
  {| method := "JSONP"; responseType := "json"; headers := [];
     urlWithParams := "https://api.example/search?q=cats&cb=JSONP_CALLBACK&fmt=json" |}.

Definition get_request : HttpRequest :=
  {| method := "GET"; responseType := "json"; headers := []; urlWithParams := "/x" |}.

Definition text_request : HttpRequest :=
  {| method := "JSONP"; responseType := "text"; headers := ["Accept"];
     urlWithParams := "/x?cb=JSONP_CALLBACK" |}.

Definition header_request : HttpRequest :=
  {| method := "JSONP"; responseType := "json"; headers := ["Accept"];
     urlWithParams := "/x?cb=JSONP_CALLBACK" |}.

Definition plain_request : HttpRequest :=
  {| method := "JSONP"; responseType := "json"; headers := [];
     urlWithParams := "/feed?limit=3" |}.

Definition search_url : string :=
  "https://api.example/search?q=cats&cb=ng_jsonp_callback_0&fmt=json".

Definition answered_exchange : Exchange :=
  with_received (JsString "hi") (new_exchange "ng_jsonp_callback_0" search_url).

(** One request subscribed; the same after its script has loaded; the same
    after its script has called the callback and loaded; the same after
    the consumer has left. *)
Definition sent_world : World := run [Request search_request] initial_world.

Definition loaded_world : World :=
  run [Request search_request; LoadEvent 0] initial_world.

Definition answered_world : World :=
  run [Request search_request;
       ScriptCalls "ng_jsonp_callback_0" (Some (JsString "hi"));
       LoadEvent 0] initial_world.

Definition cancelled_world : World :=
  run [Request search_request; Unsubscribe 0] initial_world.

(** A page on which five names have been given out already. *)
Definition fifth_world : World :=
  run [Request search_request] (with_nextRequestId 5 initial_world).

(** The page whose counter has reached [2^53]. *)
Definition saturated_world : World := with_nextRequestId MAX_EXACT initial_world.

(** ** More of what every run keeps *)

(** An exchange that waits for its answer is found in the callback map
    under its own name. *)
Definition pending_registered (w : World) : Prop :=
  ∀ e x, exchanges w !! e = Some x → closed x = false → finished x = false →
    callbackMap w !! callback x = Some e.

(** The script node of an exchange points at the exchange's URL; the node
    of a closed exchange is off the page; and a node that has left the
    main document belongs to a closed exchange that never got an answer. *)
Definition node_ok (x : Exchange) : Prop :=
  src (node x) = url x
  ∧ (closed x = true → parentNode (node x) = None)
  ∧ (ownerDocument (node x) ≠ MainDocument → closed x = true ∧ finished x = false).

Definition page_ok (w : World) : Prop :=
  ∀ e x, exchanges w !! e = Some x → node_ok x.

(** An exchange that an input has closed, or has found closed: it is
    closed, its node is off the page, and the node has changed owner only
    if the callback had not run. *)
Definition exchange_ended (x y : Exchange) : Prop :=
  callback y = callback x ∧ url y = url x ∧ src (node y) = src (node x)
  ∧ closed y = true ∧ parentNode (node y) = None
  ∧ finished y = finished x ∧ body y = body x
  ∧ (ownerDocument (node y) = ownerDocument (node x) ∨ finished x = false).

(** The exchange an input is aimed at, if any. *)
Definition target (i : Input) (w : World) : option nat :=
  match i with
  | Request _ => None
  | ScriptCalls name _ => callbackMap w !! name
  | LoadEvent e => Some e
  | ErrorEvent e _ => Some e
  | Microtask => head (microtasks w)
  | Unsubscribe e => Some e
  end.

(** The subscriber of the exchange has closed and the callback has not
    run: the exchange has ended without an answer. *)
Definition ended_unanswered (x : Exchange) : bool :=
  closed x && negb (finished x).

(** The script nodes that have left the main document are those of the
    exchanges that have ended without an answer, and the foreign document
    exists exactly when there is such an exchange. *)
Definition adoption_ok (w : World) : Prop :=
  (∀ e x, exchanges w !! e = Some x →
     ownerDocument (node x)
     = if ended_unanswered x then CreatedDocument 0 else MainDocument)
  ∧ ((foreignDocument w = None
      ∧ ∀ e x, exchanges w !! e = Some x → ended_unanswered x = false)
     ∨ (foreignDocument w = Some (CreatedDocument 0)
        ∧ ∃ e x, exchanges w !! e = Some x ∧ ended_unanswered x = true)).

(** ** Histories of cookie reads *)

(** The token read after the page has set the cookie to [cookie], and the
    extractor after the page has set and the extractor has read each
    cookie of [cs] in turn. *)
Definition read `{Xsrf.CookieParser} (cookie : option string)
    (x : Xsrf.HttpXsrfCookieExtractor) : option string * Xsrf.HttpXsrfCookieExtractor :=
  Xsrf.getToken (Xsrf.with_cookie cookie x).

Definition reads `{Xsrf.CookieParser} (cs : list (option string))
    (x : Xsrf.HttpXsrfCookieExtractor) : Xsrf.HttpXsrfCookieExtractor :=
  foldl (fun x c => (read c x).2) x cs.

(** The cookie string a read sees. *)
Definition seen (cookie : option string) : string :=
  match cookie with
  | Some c => c
  | None => ""
  end.

(** The cookie string of the last read of a history, and whether every
    read of the history saw the empty string. *)
Definition last_seen (cs : list (option string)) : string :=
  foldl (fun _ c => seen c) "" cs.

Definition all_empty (cs : list (option string)) : bool :=
  forallb (fun c => bool_decide (seen c = "")) cs.

(** How many reads of [cs] see a cookie string other than the one before,
    [before] being the one before the first. *)
Fixpoint changes (before : string) (cs : list (option string)) : nat :=
  match cs with
  | [] => 0
  | c :: cs' =>
      (if bool_decide (seen c = before) then 0 else 1) + changes (seen c) cs'
  end.

(** ** Sample parser, headers and requests for the XSRF interceptor *)

(** A parser for cookie strings that hold one cookie. *)
Definition one_cookie_parser : Xsrf.CookieParser :=
  fun cookie name => strip_prefix (name +:+ "=") cookie.

(** Headers as a list of names and values, names compared as they are. *)
Definition list_headers : Xsrf.HttpHeaders (list (string * string)) :=
  {| Xsrf.has := fun name hs => existsb (fun kv => bool_decide (kv.1 = name)) hs;
     Xsrf.set := fun name value hs =>
       (name, value) :: filter (fun kv => kv.1 ≠ name) hs |}.

Definition browser_extractor : Xsrf.HttpXsrfCookieExtractor :=
  Xsrf.new_extractor (Some "XSRF-TOKEN=abc") "browser" "XSRF-TOKEN".

Definition post_request : Xsrf.HttpRequest (list (string * string)) :=
  {| Xsrf.method := "POST"; Xsrf.url := "/api/orders";
     Xsrf.headers := [("Accept", "application/json")] |}.

Definition absolute_request : Xsrf.HttpRequest (list (string * string)) :=
  {| Xsrf.method := "POST"; Xsrf.url := "HtTpS://shop.example/api/orders";
     Xsrf.headers := [] |}.

(** ** Checks on small inputs *)

Example rewrite_middle :
  replace_placeholder "c7" ".../x?cb=JSONP_CALLBACK&y=1" = ".../x?cb=c7&y=1".
Proof. reflexivity. Qed.

Example rewrite_end :
  replace_placeholder "c7" "/x?cb=JSONP_CALLBACK" = "/x?cb=c7".
Proof. reflexivity. Qed.

Example rewrite_skips_longer_name :
  replace_placeholder "c7" "a=JSONP_CALLBACKx&b=JSONP_CALLBACK" = "a=JSONP_CALLBACKx&b=c7".
Proof. reflexivity. Qed.

Example rewrite_leftmost_only :
  replace_placeholder "c7" "a=JSONP_CALLBACK&b=JSONP_CALLBACK" = "a=c7&b=JSONP_CALLBACK".
Proof. reflexivity. Qed.

Example success_run :
  emitted_by 0
    (run [Request search_request;
          ScriptCalls "ng_jsonp_callback_0" (Some (JsString "hi"));
          LoadEvent 0; Microtask] initial_world)
  = [NextN Sent;
     NextN (Response
       {| resp_body := JsString "hi"; resp_status := 200; resp_statusText := "OK";
          resp_url := "https://api.example/search?q=cats&cb=ng_jsonp_callback_0&fmt=json" |});
     CompleteN].
Proof. vm_compute. reflexivity. Qed.

Example no_callback_run :
  emitted_by 0 (run [Request search_request; LoadEvent 0; Microtask] initial_world)
  = [NextN Sent;
     ErrorN
       {| err_error := JsErrorObject "JSONP injected script did not invoke callback.";
          err_status := 0; err_statusText := "JSONP Error";
          err_url := "https://api.example/search?q=cats&cb=ng_jsonp_callback_0&fmt=json" |}].
Proof. vm_compute. reflexivity. Qed.

(** * Properties *)

(** ** Strings *)

Lemma strip_prefix_Some (p s r : string) :
  strip_prefix p s = Some r ↔ s = p +:+ r.
Proof.
  revert s. induction p as [|a p IH]; intros s; simpl.
  - split; [intros [= ->] | intros ->]; reflexivity.
  - destruct s as [|b s].
    + split; discriminate.
    + destruct (decide (a = b)) as [->|Hne].
      * rewrite IH. split; [intros -> | intros [= ->]]; reflexivity.
      * split; [discriminate | intros [= ? ?]; congruence].
Qed.

Lemma match_placeholder_Some (s delim post : string) :
  match_placeholder s = Some (delim, post) ↔ placeholder_at "" delim post s.
Proof.
  unfold match_placeholder, placeholder_at.
  destruct (strip_prefix "=JSONP_CALLBACK" s) as [r|] eqn:Hr.
  - apply strip_prefix_Some in Hr. subst s. split.
    + destruct r as [|c r]; [intros [= <- <-]; split; [reflexivity | right; done]|].
      destruct (decide (c = "&"%char)) as [->|Hne].
      * intros [= <- <-]. split; [reflexivity | by left].
      * intros H. exfalso.
        destruct c as [[] [] [] [] [] [] [] []]; try discriminate H. by apply Hne.
    + intros [Heq Hd].
      change ("" +:+ "=JSONP_CALLBACK" +:+ delim +:+ post)
        with ("=JSONP_CALLBACK" +:+ (delim +:+ post)) in Heq.
      assert (r = delim +:+ post) as ->.
      { clear Hd. simpl in Heq. by injection Heq. }
      destruct Hd as [-> | [-> ->]]; reflexivity.
  - split; [discriminate|].
    intros [Heq _].
    assert (strip_prefix "=JSONP_CALLBACK" s = Some (delim +:+ post)) as Hs
      by (apply strip_prefix_Some; exact Heq).
    congruence.
Qed.

Lemma placeholder_at_cons (c : ascii) (pre delim post s : string) :
  placeholder_at pre delim post s →
  placeholder_at (String c pre) delim post (String c s).
Proof. intros [-> Hd]. split; [reflexivity | exact Hd]. Qed.

Lemma placeholder_at_tail (c : ascii) (pre delim post s : string) :
  placeholder_at (String c pre) delim post (String c s) →
  placeholder_at pre delim post s.
Proof. intros [Heq Hd]. split; [|exact Hd]. simpl in Heq. by injection Heq. Qed.

Lemma replace_placeholder_unfold (cb s : string) :
  replace_placeholder cb s =
  match match_placeholder s with
  | Some (group, rest) => "=" +:+ cb +:+ group +:+ rest
  | None =>
      match s with
      | EmptyString => EmptyString
      | String c s' => String c (replace_placeholder cb s')
      end
  end.
Proof. destruct s; reflexivity. Qed.

Lemma replace_placeholder_at (cb pre delim post s : string) :
  placeholder_at pre delim post s →
  (∀ pre' delim' post', placeholder_at pre' delim' post' s →
     (String.length pre ≤ String.length pre')%nat) →
  replace_placeholder cb s = pre +:+ "=" +:+ cb +:+ delim +:+ post.
Proof.
  revert s. induction pre as [|c pre IH]; intros s Hat Hfirst.
  - apply match_placeholder_Some in Hat.
    rewrite replace_placeholder_unfold, Hat. reflexivity.
  - assert (∃ s', s = String c s') as [s' ->].
    { destruct Hat as [-> _]. simpl. eauto. }
    assert (match_placeholder (String c s') = None) as Hnone.
    { destruct (match_placeholder (String c s')) as [[d p]|] eqn:Hm; [|done].
      apply match_placeholder_Some in Hm. apply Hfirst in Hm. simpl in Hm. lia. }
    rewrite replace_placeholder_unfold, Hnone.
    change (String c pre +:+ "=" +:+ cb +:+ delim +:+ post)
      with (String c (pre +:+ "=" +:+ cb +:+ delim +:+ post)).
    f_equal. apply IH.
    + exact (placeholder_at_tail _ _ _ _ _ Hat).
    + intros pre' delim' post' H'.
      apply (placeholder_at_cons c), Hfirst in H'. simpl in H'. lia.
Qed.

Lemma replace_placeholder_absent (cb s : string) :
  (∀ pre delim post, ¬ placeholder_at pre delim post s) →
  replace_placeholder cb s = s.
Proof.
  induction s as [|c s IH]; intros Habs; rewrite replace_placeholder_unfold.
  - destruct (match_placeholder "") as [[d p]|] eqn:Hm; [|done].
    apply match_placeholder_Some in Hm. by apply Habs in Hm.
  - destruct (match_placeholder (String c s)) as [[d p]|] eqn:Hm.
    + apply match_placeholder_Some in Hm. by apply Habs in Hm.
    + f_equal. apply IH. intros pre delim post H.
      apply (placeholder_at_cons c), Habs in H. exact H.
Qed.

(** ** Worlds: one exchange rewritten in place *)

Lemma alter_lookup_insert {A} (f : A → A) (l : list A) (i : nat) (x : A) :
  l !! i = Some x → alter f i l = <[i := f x]> l.
Proof.
  intros Hx. apply list_eq. intros j.
  destruct (decide (i = j)) as [<-|Hne].
  - rewrite list_lookup_alter_eq, Hx, list_lookup_insert_eq; [done|].
    by eapply lookup_lt_Some.
  - by rewrite list_lookup_alter_ne, list_lookup_insert_ne.
Qed.

Lemma update_exchange_Some (e : nat) (f : Exchange → Exchange) (w : World) (x : Exchange) :
  exchanges w !! e = Some x → update_exchange e f w = set_exchange e (f x) w.
Proof.
  intros Hx. unfold update_exchange, set_exchange.
  by rewrite (alter_lookup_insert f _ _ _ Hx).
Qed.

Lemma lookup_set_exchange_eq (e : nat) (y x : Exchange) (w : World) :
  exchanges w !! e = Some x → exchanges (set_exchange e y w) !! e = Some y.
Proof. intros Hx. simpl. apply list_lookup_insert_eq. by eapply lookup_lt_Some. Qed.

Lemma lookup_set_exchange_ne (e e' : nat) (y : Exchange) (w : World) :
  e ≠ e' → exchanges (set_exchange e y w) !! e' = exchanges w !! e'.
Proof. intros Hne. simpl. by apply list_lookup_insert_ne. Qed.

Lemma set_exchange_twice (e : nat) (y z : Exchange) (w : World) :
  set_exchange e y (set_exchange e z w) = set_exchange e y w.
Proof. unfold set_exchange, with_exchanges. simpl. by rewrite list_insert_insert_eq. Qed.

(** ** What each closure does to a world in which its exchange exists *)

Lemma cleanup_Some (e : nat) (w : World) (x : Exchange) :
  exchanges w !! e = Some x →
  cleanup e w =
  set_exchange e (cleaned x) (with_callbackMap (delete (callback x) (callbackMap w)) w).
Proof.
  intros Hx. unfold cleanup. rewrite Hx.
  rewrite (update_exchange_Some _ _ _ _ Hx). reflexivity.
Qed.

Lemma cleanup_None (e : nat) (w : World) :
  exchanges w !! e = None → cleanup e w = w.
Proof. intros Hx. unfold cleanup. by rewrite Hx. Qed.

Lemma foreignDocument_ensure (w : World) :
  foreignDocument (ensure_foreignDocument w) = Some (the_foreign_document w).
Proof.
  unfold ensure_foreignDocument, the_foreign_document.
  by destruct (foreignDocument w) eqn:Hd.
Qed.

Lemma exchanges_ensure (w : World) :
  exchanges (ensure_foreignDocument w) = exchanges w.
Proof. unfold ensure_foreignDocument. by destruct (foreignDocument w). Qed.

Lemma removeListeners_Some (e : nat) (w : World) (x : Exchange) :
  exchanges w !! e = Some x →
  removeListeners e w =
  set_exchange e (adopted (the_foreign_document w) x) (ensure_foreignDocument w).
Proof.
  intros Hx. unfold removeListeners. rewrite foreignDocument_ensure.
  apply update_exchange_Some. by rewrite exchanges_ensure.
Qed.

Lemma cleaned_adopted (doc : Document) (x : Exchange) :
  cleaned (adopted doc x) = adopted doc x.
Proof. reflexivity. Qed.

Lemma cancel_Some (e : nat) (w : World) (x : Exchange) :
  exchanges w !! e = Some x → cancel e w = after_cancel e x w.
Proof.
  intros Hx. unfold cancel, after_cancel. rewrite Hx.
  destruct (finished x) eqn:Hf; simpl.
  - by apply cleanup_Some.
  - rewrite (removeListeners_Some _ _ _ Hx).
    assert (exchanges (ensure_foreignDocument w) !! e = Some x) as Hx'
      by (by rewrite exchanges_ensure).
    rewrite (cleanup_Some e _ (adopted (the_foreign_document w) x)
               (lookup_set_exchange_eq _ _ _ _ Hx')).
    rewrite cleaned_adopted.
    unfold ensure_foreignDocument.
    destruct (foreignDocument w); unfold set_exchange, with_exchanges, with_callbackMap;
      simpl; by rewrite list_insert_insert_eq.
Qed.

Lemma after_cancel_set (e : nat) (y z : Exchange) (w : World) :
  after_cancel e y (set_exchange e z w) = after_cancel e y w.
Proof.
  unfold after_cancel, ensure_foreignDocument, the_foreign_document.
  destruct (finished y), (foreignDocument w) eqn:Hd; simpl; rewrite ?Hd;
    unfold set_exchange, with_exchanges, with_callbackMap; simpl;
    by rewrite list_insert_insert_eq.
Qed.

Lemma cancel_set (e : nat) (w : World) (x y : Exchange) :
  exchanges w !! e = Some x → cancel e (set_exchange e y w) = after_cancel e y w.
Proof.
  intros Hx.
  rewrite (cancel_Some e _ y (lookup_set_exchange_eq _ _ _ _ Hx)).
  apply after_cancel_set.
Qed.

Lemma lookup_after_cancel_eq (e : nat) (y x : Exchange) (w : World) :
  exchanges w !! e = Some x →
  exchanges (after_cancel e y w) !! e =
  Some (if finished y then cleaned y else adopted (the_foreign_document w) y).
Proof.
  intros Hx. unfold after_cancel.
  destruct (finished y); simpl; apply list_lookup_insert_eq;
    rewrite ?exchanges_ensure; by eapply lookup_lt_Some.
Qed.

Lemma lookup_after_cancel_ne (e e' : nat) (y : Exchange) (w : World) :
  e ≠ e' → exchanges (after_cancel e y w) !! e' = exchanges w !! e'.
Proof.
  intros Hne. unfold after_cancel.
  destruct (finished y); simpl; rewrite list_lookup_insert_ne by done;
    by rewrite ?exchanges_ensure.
Qed.

Lemma microtasks_ensure (w : World) :
  microtasks (ensure_foreignDocument w) = microtasks w.
Proof. unfold ensure_foreignDocument. by destruct (foreignDocument w). Qed.

Lemma nextRequestId_ensure (w : World) :
  nextRequestId (ensure_foreignDocument w) = nextRequestId w.
Proof. unfold ensure_foreignDocument. by destruct (foreignDocument w). Qed.

Lemma callbackMap_after_cancel (e : nat) (y : Exchange) (w : World) :
  callbackMap (after_cancel e y w) = delete (callback y) (callbackMap w).
Proof. unfold after_cancel. by destruct (finished y). Qed.

Lemma microtasks_after_cancel (e : nat) (y : Exchange) (w : World) :
  microtasks (after_cancel e y w) = microtasks w.
Proof.
  unfold after_cancel. destruct (finished y); simpl; by rewrite ?microtasks_ensure.
Qed.

Lemma nextRequestId_after_cancel (e : nat) (y : Exchange) (w : World) :
  nextRequestId (after_cancel e y w) = nextRequestId w.
Proof.
  unfold after_cancel. destruct (finished y); simpl; by rewrite ?nextRequestId_ensure.
Qed.

Lemma length_exchanges_after_cancel (e : nat) (y : Exchange) (w : World) :
  length (exchanges (after_cancel e y w)) = length (exchanges w).
Proof.
  unfold after_cancel.
  destruct (finished y); simpl; by rewrite length_insert, ?exchanges_ensure.
Qed.

(** ** The subscriber and the closures, on a live or a closed exchange *)

Lemma is_closed_Some (e : nat) (w : World) (x : Exchange) :
  exchanges w !! e = Some x → is_closed e w = closed x.
Proof. intros Hx. unfold is_closed. by rewrite Hx. Qed.

Lemma observer_next_live (e : nat) (ev : HttpEvent) (w : World) (x : Exchange) :
  exchanges w !! e = Some x → closed x = false →
  observer_next e ev w = set_exchange e (deliver (NextN ev) x) w.
Proof.
  intros Hx Hc. unfold observer_next. rewrite (is_closed_Some _ _ _ Hx), Hc.
  by apply update_exchange_Some.
Qed.

Lemma observer_next_closed (e : nat) (ev : HttpEvent) (w : World) :
  is_closed e w = true → observer_next e ev w = w.
Proof. intros Hc. unfold observer_next. by rewrite Hc. Qed.

Lemma observer_error_live (e : nat) (err : HttpErrorResponse) (w : World) (x : Exchange) :
  exchanges w !! e = Some x → closed x = false →
  observer_error e err w = after_cancel e (close (deliver (ErrorN err) x)) w.
Proof.
  intros Hx Hc. unfold observer_error. rewrite (is_closed_Some _ _ _ Hx), Hc.
  rewrite (update_exchange_Some _ _ _ _ Hx). by apply (cancel_set _ _ x).
Qed.

Lemma observer_error_closed (e : nat) (err : HttpErrorResponse) (w : World) :
  is_closed e w = true → observer_error e err w = w.
Proof. intros Hc. unfold observer_error. by rewrite Hc. Qed.

Lemma observer_complete_live (e : nat) (w : World) (x : Exchange) :
  exchanges w !! e = Some x → closed x = false →
  observer_complete e w = after_cancel e (close (deliver CompleteN x)) w.
Proof.
  intros Hx Hc. unfold observer_complete. rewrite (is_closed_Some _ _ _ Hx), Hc.
  rewrite (update_exchange_Some _ _ _ _ Hx). by apply (cancel_set _ _ x).
Qed.

Lemma observer_complete_closed (e : nat) (w : World) :
  is_closed e w = true → observer_complete e w = w.
Proof. intros Hc. unfold observer_complete. by rewrite Hc. Qed.

Lemma unsubscribe_live (e : nat) (w : World) (x : Exchange) :
  exchanges w !! e = Some x → closed x = false →
  unsubscribe e w = after_cancel e (close x) w.
Proof.
  intros Hx Hc. unfold unsubscribe. rewrite (is_closed_Some _ _ _ Hx), Hc.
  rewrite (update_exchange_Some _ _ _ _ Hx). by apply (cancel_set _ _ x).
Qed.

Lemma unsubscribe_closed (e : nat) (w : World) :
  is_closed e w = true → unsubscribe e w = w.
Proof. intros Hc. unfold unsubscribe. by rewrite Hc. Qed.

Lemma response_callback_Some (e : nat) (data : JsValue) (w : World) (x : Exchange) :
  exchanges w !! e = Some x →
  response_callback e data w =
  set_exchange e (with_received data x)
    (with_callbackMap (delete (callback x) (callbackMap w)) w).
Proof.
  intros Hx. unfold response_callback. rewrite Hx.
  by apply update_exchange_Some.
Qed.

Lemma onLoad_deferred_closed (e : nat) (w : World) (x : Exchange) :
  exchanges w !! e = Some x → closed x = true →
  onLoad_deferred e w =
  set_exchange e (cleaned x) (with_callbackMap (delete (callback x) (callbackMap w)) w).
Proof.
  intros Hx Hc. unfold onLoad_deferred.
  rewrite (cleanup_Some _ _ _ Hx).
  set (w0 := with_callbackMap _ w).
  assert (exchanges w0 !! e = Some x) as Hx0 by exact Hx.
  rewrite (lookup_set_exchange_eq _ _ _ _ Hx0).
  assert (is_closed e (set_exchange e (cleaned x) w0) = true) as Hcl.
  { by rewrite (is_closed_Some _ _ _ (lookup_set_exchange_eq _ _ _ _ Hx0)). }
  destruct (negb (finished (cleaned x))).
  - by apply observer_error_closed.
  - rewrite (observer_next_closed _ _ _ Hcl). by apply observer_complete_closed.
Qed.

Lemma onLoad_deferred_live (e : nat) (w : World) (x : Exchange) :
  exchanges w !! e = Some x → closed x = false →
  onLoad_deferred e w =
  after_cancel e
    (close (if finished x
            then deliver CompleteN (deliver (NextN (Response (ok_response x))) (cleaned x))
            else deliver (ErrorN (no_callback_error x)) (cleaned x)))
    (with_callbackMap (delete (callback x) (callbackMap w)) w).
Proof.
  intros Hx Hc. unfold onLoad_deferred.
  rewrite (cleanup_Some _ _ _ Hx).
  set (w0 := with_callbackMap _ w).
  assert (exchanges w0 !! e = Some x) as Hx0 by exact Hx.
  pose proof (lookup_set_exchange_eq e (cleaned x) _ _ Hx0) as Hx1.
  rewrite Hx1.
  change (finished (cleaned x)) with (finished x).
  destruct (finished x) eqn:Hf; simpl negb; cbv iota.
  - rewrite (observer_next_live _ _ _ _ Hx1 Hc), set_exchange_twice.
    erewrite observer_complete_live;
      [| apply (lookup_set_exchange_eq _ _ _ _ Hx0) | exact Hc].
    by rewrite after_cancel_set.
  - rewrite (observer_error_live _ _ _ _ Hx1 Hc). by rewrite after_cancel_set.
Qed.

Lemma onLoad_deferred_None (e : nat) (w : World) :
  exchanges w !! e = None → onLoad_deferred e w = w.
Proof.
  intros Hx. unfold onLoad_deferred. rewrite (cleanup_None _ _ Hx). by rewrite Hx.
Qed.

Lemma onError_closed (e : nat) (error : JsValue) (w : World) (x : Exchange) :
  exchanges w !! e = Some x → closed x = true →
  onError e error w =
  set_exchange e (cleaned x) (with_callbackMap (delete (callback x) (callbackMap w)) w).
Proof.
  intros Hx Hc. unfold onError.
  rewrite (cleanup_Some _ _ _ Hx).
  set (w0 := with_callbackMap _ w).
  assert (exchanges w0 !! e = Some x) as Hx0 by exact Hx.
  rewrite (lookup_set_exchange_eq _ _ _ _ Hx0).
  apply observer_error_closed.
  by rewrite (is_closed_Some _ _ _ (lookup_set_exchange_eq _ _ _ _ Hx0)).
Qed.

Lemma onError_live (e : nat) (error : JsValue) (w : World) (x : Exchange) :
  exchanges w !! e = Some x → closed x = false →
  onError e error w =
  after_cancel e (close (deliver (ErrorN (load_error error x)) (cleaned x)))
    (with_callbackMap (delete (callback x) (callbackMap w)) w).
Proof.
  intros Hx Hc. unfold onError.
  rewrite (cleanup_Some _ _ _ Hx).
  set (w0 := with_callbackMap _ w).
  assert (exchanges w0 !! e = Some x) as Hx0 by exact Hx.
  pose proof (lookup_set_exchange_eq e (cleaned x) _ _ Hx0) as Hx1.
  rewrite Hx1.
  rewrite (observer_error_live _ _ _ _ Hx1 Hc). by rewrite after_cancel_set.
Qed.

Lemma onError_None (e : nat) (error : JsValue) (w : World) :
  exchanges w !! e = None → onError e error w = w.
Proof.
  intros Hx. unfold onError. rewrite (cleanup_None _ _ Hx). by rewrite Hx.
Qed.

(** ** A subscription *)

Lemma alter_snoc {A} (f : A → A) (l : list A) (x : A) :
  alter f (length l) (l ++ [x]) = l ++ [f x].
Proof. induction l as [|a l IH]; simpl; [reflexivity | by f_equal]. Qed.

Lemma subscribe_eq (obs : Observable) (w : World) :
  subscribe obs w =
  (length (exchanges w),
   {| nextRequestId := js_increment (nextRequestId w);
      foreignDocument := foreignDocument w;
      documentsCreated := documentsCreated w;
      callbackMap :=
        <[callback_name (nextRequestId w) := length (exchanges w)]> (callbackMap w);
      exchanges :=
        exchanges w ++
        [new_exchange (callback_name (nextRequestId w))
           (replace_placeholder (callback_name (nextRequestId w))
              (urlWithParams (observed obs)))];
      microtasks := microtasks w |}).
Proof.
  unfold subscribe, nextCallback. cbn [with_nextRequestId exchanges].
  f_equal. unfold observer_next, is_closed, update_exchange.
  cbn [exchanges with_exchanges with_callbackMap with_nextRequestId].
  rewrite alter_snoc, list_lookup_middle by reflexivity.
  cbn [closed with_node]. cbn [exchanges with_exchanges].
  rewrite alter_snoc. reflexivity.
Qed.

Lemma handle_accepts (req : HttpRequest) (w : World) :
  method req = "JSONP" → responseType req = "json" → headers req = [] →
  handle req w = (inr {| observed := req |}, w).
Proof.
  intros Hm Hr Hh. unfold handle.
  rewrite !bool_decide_eq_true_2 by done. rewrite Hh. reflexivity.
Qed.

Lemma step_Request_accepted (req : HttpRequest) (w : World) :
  method req = "JSONP" → responseType req = "json" → headers req = [] →
  step (Request req) w = (subscribe {| observed := req |} w).2.
Proof. intros Hm Hr Hh. simpl. by rewrite handle_accepts. Qed.

Lemma step_Request_cases (req : HttpRequest) (w : World) :
  step (Request req) w = w
  ∨ step (Request req) w = (subscribe {| observed := req |} w).2.
Proof.
  simpl. unfold handle. repeat case_match; simplify_eq; auto.
Qed.

Lemma find_placeholder_unfold (s : string) :
  find_placeholder s =
  match match_placeholder s with
  | Some (delim, post) => Some (EmptyString, delim, post)
  | None =>
      match s with
      | EmptyString => None
      | String c s' =>
          match find_placeholder s' with
          | Some (pre, delim, post) => Some (String c pre, delim, post)
          | None => None
          end
      end
  end.
Proof. by destruct s. Qed.

Lemma placeholder_at_head (c c' : ascii) (pre delim post s : string) :
  placeholder_at (String c pre) delim post (String c' s) → c' = c.
Proof. intros [Heq _]. by injection Heq. Qed.

Lemma find_placeholder_Some (s pre delim post : string) :
  find_placeholder s = Some (pre, delim, post) →
  placeholder_at pre delim post s
  ∧ ∀ pre' delim' post', placeholder_at pre' delim' post' s →
      String.length pre ≤ String.length pre'.
Proof.
  revert pre. induction s as [|c s IH]; intros pre; rewrite find_placeholder_unfold.
  - destruct (match_placeholder "") as [[d p]|] eqn:Hm; [|done].
    intros [= <- <- <-]. split; [by apply match_placeholder_Some | simpl; lia].
  - destruct (match_placeholder (String c s)) as [[d p]|] eqn:Hm.
    + intros [= <- <- <-]. split; [by apply match_placeholder_Some | simpl; lia].
    + destruct (find_placeholder s) as [[[pre0 d] p]|] eqn:Hf; [|done].
      intros [= <- <- <-]. destruct (IH pre0 eq_refl) as [Hat Hmin].
      split; [by apply placeholder_at_cons|].
      intros pre' delim' post' Hat'. destruct pre' as [|c' pre'].
      * apply match_placeholder_Some in Hat'. congruence.
      * pose proof (placeholder_at_head _ _ _ _ _ _ Hat') as ->.
        apply placeholder_at_tail, Hmin in Hat'. simpl. lia.
Qed.

Lemma find_placeholder_None (s : string) :
  find_placeholder s = None → ∀ pre delim post, ¬ placeholder_at pre delim post s.
Proof.
  induction s as [|c s IH]; rewrite find_placeholder_unfold.
  - destruct (match_placeholder "") as [[d p]|] eqn:Hm; [done|].
    intros _ pre delim post Hat. destruct pre; [|by destruct Hat].
    apply match_placeholder_Some in Hat. congruence.
  - destruct (match_placeholder (String c s)) as [[d p]|] eqn:Hm; [done|].
    destruct (find_placeholder s) as [[[pre0 d] p]|] eqn:Hf; [done|].
    intros _ pre delim post Hat. destruct pre as [|c' pre].
    + apply match_placeholder_Some in Hat. congruence.
    + pose proof (placeholder_at_head _ _ _ _ _ _ Hat) as ->.
      by apply placeholder_at_tail, IH in Hat.
Qed.

(** ** How one input changes a world *)

Lemma run_snoc (tr : list Input) (i : Input) (w : World) :
  run (tr ++ [i]) w = step i (run tr w).
Proof. unfold run. by rewrite foldl_snoc. Qed.

Lemma exchange_evolves_refl (x : Exchange) : exchange_evolves x x.
Proof. unfold exchange_evolves. auto 10. Qed.

Lemma exchange_evolves_trans (x y z : Exchange) :
  exchange_evolves x y → exchange_evolves y z → exchange_evolves x z.
Proof.
  intros (Hc1 & Hu1 & H1) (Hc2 & Hu2 & H2).
  split; [congruence | split; [congruence|]].
  destruct H1 as [(Hcl1 & He1 & Hn1) | (Hcl1 & Hcl1' & l1 & Hl1 & He1)],
           H2 as [(Hcl2 & He2 & Hn2) | (Hcl2 & Hcl2' & l2 & Hl2 & He2)].
  - left. split; [congruence | split; [congruence|]].
    intros Hx. rewrite Hn2 by congruence. by apply Hn1.
  - right. split; [congruence | split; [done|]]. exists l2. split; [done | congruence].
  - right. split; [done | split; [congruence|]]. exists l1. split; [done | congruence].
  - congruence.
Qed.

Lemma exchange_evolves_same_view (x y : Exchange) :
  callback y = callback x → url y = url x →
  closed y = closed x → emitted y = emitted x →
  (closed x = false → node y = node x) → exchange_evolves x y.
Proof. unfold exchange_evolves. auto 10. Qed.

Lemma exchange_evolves_cancelled (doc : Document) (x y : Exchange) :
  closed y = true → exchange_evolves x y →
  exchange_evolves x (if finished y then cleaned y else adopted doc y).
Proof.
  intros Hc Hxy. apply (exchange_evolves_trans _ y); [done|].
  destruct (finished y); apply exchange_evolves_same_view; try done; congruence.
Qed.

Lemma exchange_evolves_error (err : HttpErrorResponse) (x : Exchange) :
  closed x = false → exchange_evolves x (close (deliver (ErrorN err) (cleaned x))).
Proof.
  intros Hc. split; [done | split; [done|]]. right. split; [done | split; [done|]].
  exists [ErrorN err]. split; [|done]. right. left. by exists err.
Qed.

Lemma exchange_evolves_success (r : HttpResponse) (x : Exchange) :
  closed x = false →
  exchange_evolves x
    (close (deliver CompleteN (deliver (NextN (Response r)) (cleaned x)))).
Proof.
  intros Hc. split; [done | split; [done|]]. right. split; [done | split; [done|]].
  exists [NextN (Response r); CompleteN]. split.
  - right. right. by exists r.
  - simpl. by rewrite <- app_assoc.
Qed.

Lemma exchange_evolves_unsubscribed (x : Exchange) :
  closed x = false → exchange_evolves x (close x).
Proof.
  intros Hc. split; [done | split; [done|]]. right. split; [done | split; [done|]].
  exists []. split; [by left | simpl; by rewrite app_nil_r].
Qed.

Lemma world_evolves_same (w w' : World) :
  nextRequestId w' = nextRequestId w → exchanges w' = exchanges w →
  foreignDocument w' = foreignDocument w → documentsCreated w' = documentsCreated w →
  world_evolves w w'.
Proof.
  intros Hn He Hf Hd. split; [done | split; [by rewrite He | split]].
  - intros i x Hx. exists x. rewrite He. split; [done | apply exchange_evolves_refl].
  - by left.
Qed.

Lemma world_evolves_refl (w : World) : world_evolves w w.
Proof. by apply world_evolves_same. Qed.

Lemma world_evolves_set (e : nat) (x y : Exchange) (w w0 : World) :
  nextRequestId w0 = nextRequestId w → exchanges w0 = exchanges w →
  foreignDocument w0 = foreignDocument w → documentsCreated w0 = documentsCreated w →
  exchanges w !! e = Some x → exchange_evolves x y →
  world_evolves w (set_exchange e y w0).
Proof.
  intros Hn He Hf Hd Hx Hxy. split; [done | split; [|split]].
  - simpl. by rewrite length_insert, He.
  - intros i z Hz. destruct (decide (e = i)) as [<-|Hne].
    + exists y. split; [|congruence].
      eapply lookup_set_exchange_eq. by rewrite He.
    + exists z. rewrite lookup_set_exchange_ne by done.
      rewrite He. split; [done | apply exchange_evolves_refl].
  - by left.
Qed.

Lemma documents_evolve_ensure (w : World) :
  documents_evolve w (ensure_foreignDocument w).
Proof.
  unfold documents_evolve, ensure_foreignDocument.
  destruct (foreignDocument w) eqn:Hd; [left | right]; rewrite ?Hd; auto.
Qed.

Lemma world_evolves_after_cancel (e : nat) (x y : Exchange) (w w0 : World) :
  nextRequestId w0 = nextRequestId w → exchanges w0 = exchanges w →
  foreignDocument w0 = foreignDocument w → documentsCreated w0 = documentsCreated w →
  exchanges w !! e = Some x → closed y = true → exchange_evolves x y →
  world_evolves w (after_cancel e y w0).
Proof.
  intros Hn He Hf Hd Hx Hcy Hxy.
  assert (exchanges w0 !! e = Some x) as Hx0 by (by rewrite He).
  split; [by rewrite nextRequestId_after_cancel | split; [|split]].
  - by rewrite length_exchanges_after_cancel, He.
  - intros i z Hz. destruct (decide (e = i)) as [<-|Hne].
    + eexists. split; [by apply (lookup_after_cancel_eq _ _ x)|].
      assert (z = x) as -> by congruence.
      by apply exchange_evolves_cancelled.
    + exists z. rewrite lookup_after_cancel_ne by done.
      rewrite He. split; [done | apply exchange_evolves_refl].
  - unfold after_cancel. destruct (finished y).
    + left. by split.
    + pose proof (documents_evolve_ensure w0) as Hev.
      unfold documents_evolve in *. simpl. rewrite <- Hf, <- Hd. exact Hev.
Qed.

Lemma step_evolves (i : Input) (w : World) :
  (∀ req, i ≠ Request req) → world_evolves w (step i w).
Proof.
  intros Hreq. destruct i as [req|name arg|e|e error| |e]; simpl.
  - by destruct (Hreq req).
  - destruct (callbackMap w !! name) as [e|]; [|apply world_evolves_refl].
    destruct (exchanges w !! e) as [x|] eqn:Hx.
    + rewrite (response_callback_Some _ _ _ _ Hx).
      apply (world_evolves_set _ x); try done.
      by apply exchange_evolves_same_view.
    + unfold response_callback. rewrite Hx. apply world_evolves_refl.
  - destruct (exchanges w !! e); [|apply world_evolves_refl].
    by apply world_evolves_same.
  - destruct (exchanges w !! e) as [x|] eqn:Hx.
    + destruct (closed x) eqn:Hc.
      * rewrite (onError_closed _ _ _ _ Hx Hc).
        apply (world_evolves_set _ x); try done.
        apply exchange_evolves_same_view; try done; congruence.
      * rewrite (onError_live _ _ _ _ Hx Hc).
        apply (world_evolves_after_cancel _ x); try done.
        by apply exchange_evolves_error.
    + rewrite (onError_None _ _ _ Hx). apply world_evolves_refl.
  - destruct (microtasks w) as [|e q]; [apply world_evolves_refl|].
    set (w0 := with_microtasks q w).
    destruct (exchanges w !! e) as [x|] eqn:Hx.
    + assert (exchanges w0 !! e = Some x) as Hx0 by exact Hx.
      destruct (closed x) eqn:Hc.
      * rewrite (onLoad_deferred_closed _ _ _ Hx0 Hc).
        apply (world_evolves_set _ x); try done.
        apply exchange_evolves_same_view; try done; congruence.
      * rewrite (onLoad_deferred_live _ _ _ Hx0 Hc).
        apply (world_evolves_after_cancel _ x); try done.
        destruct (finished x);
          [by apply exchange_evolves_success | by apply exchange_evolves_error].
    + rewrite onLoad_deferred_None by exact Hx. by apply world_evolves_same.
  - destruct (exchanges w !! e) as [x|] eqn:Hx.
    + destruct (closed x) eqn:Hc.
      * rewrite unsubscribe_closed; [apply world_evolves_refl|].
        by rewrite (is_closed_Some _ _ _ Hx).
      * rewrite (unsubscribe_live _ _ _ Hx Hc).
        apply (world_evolves_after_cancel _ x); try done.
        by apply exchange_evolves_unsubscribed.
    + rewrite unsubscribe_closed; [apply world_evolves_refl|].
      unfold is_closed. by rewrite Hx.
Qed.

Lemma step_Request (req : HttpRequest) (w : World) :
  step (Request req) w = w ∨ step (Request req) w = subscribed req w.
Proof.
  destruct (step_Request_cases req w) as [H|H]; [by left | right].
  by rewrite H, subscribe_eq.
Qed.

Lemma step_Request_valid (req : HttpRequest) (w : World) :
  method req = "JSONP" → responseType req = "json" → headers req = [] →
  step (Request req) w = subscribed req w.
Proof.
  intros Hm Hr Hh. by rewrite (step_Request_accepted _ _ Hm Hr Hh), subscribe_eq.
Qed.

Lemma input_cases (i : Input) :
  (∃ req, i = Request req) ∨ (∀ req, i ≠ Request req).
Proof. destruct i; eauto. Qed.

Lemma step_keeps_exchange (i : Input) (w : World) (e : nat) (x : Exchange) :
  exchanges w !! e = Some x →
  ∃ x', exchanges (step i w) !! e = Some x' ∧ exchange_evolves x x'.
Proof.
  intros Hx. destruct (input_cases i) as [[req ->]|Hn].
  - exists x. split; [|apply exchange_evolves_refl].
    destruct (step_Request req w) as [-> | ->]; [done|].
    simpl. by apply lookup_app_l_Some.
  - by apply (step_evolves i w).
Qed.

Lemma step_exchange_origin (i : Input) (w : World) (e : nat) (x' : Exchange) :
  exchanges (step i w) !! e = Some x' →
  (∃ x, exchanges w !! e = Some x ∧ exchange_evolves x x')
  ∨ (e = length (exchanges w) ∧ ∃ req,
       i = Request req ∧ step i w = subscribed req w
       ∧ x' = new_exchange (callback_name (nextRequestId w))
                (replace_placeholder (callback_name (nextRequestId w))
                   (urlWithParams req))).
Proof.
  intros Hx'. destruct (exchanges w !! e) as [x|] eqn:Hx.
  - left. exists x. split; [done|].
    destruct (step_keeps_exchange i w e x Hx) as (x'' & Hx'' & Hev). congruence.
  - right. apply lookup_ge_None_1 in Hx.
    pose proof (lookup_lt_Some _ _ _ Hx') as Hlt.
    destruct (input_cases i) as [[req ->]|Hn].
    + destruct (step_Request req w) as [Heq | Heq]; rewrite Heq in Hx', Hlt.
      * lia.
      * simpl in Hx', Hlt. rewrite length_app in Hlt. simpl in Hlt.
        assert (e = length (exchanges w)) as -> by lia.
        rewrite list_lookup_middle in Hx' by done.
        split; [done|]. exists req. split; [done | split; [done | congruence]].
    + destruct (step_evolves i w) as (_ & Hlen & _); [done|]. lia.
Qed.

Lemma step_documents (i : Input) (w : World) : documents_evolve w (step i w).
Proof.
  destruct (input_cases i) as [[req ->]|Hn].
  - left. by destruct (step_Request req w) as [-> | ->].
  - by apply (step_evolves i w).
Qed.

(** ** Invariants of every run *)

Lemma exchange_ok_evolves (x x' : Exchange) :
  exchange_evolves x x' → exchange_ok x → exchange_ok x'.
Proof.
  intros (Hcb & Hu & Hv) [Hlive Hshape].
  destruct Hv as [(Hc & He & Hn) | (Hc & Hc' & l & Hl & He)].
  - split; [|by rewrite He].
    intros Hc0. rewrite Hc in Hc0. destruct (Hlive Hc0) as [Hs Hnd].
    split; [congruence|]. rewrite Hn, Hu by done. exact Hnd.
  - split; [congruence|].
    destruct (Hlive Hc) as [Hs _]. rewrite He, Hs.
    destruct Hl as [-> | [[err ->] | [r ->]]]; simpl; eauto.
Qed.

Lemma new_exchange_ok (cb u : string) : exchange_ok (new_exchange cb u).
Proof. split; [done | by left]. Qed.

Lemma step_ok (i : Input) (w : World) : world_ok w → world_ok (step i w).
Proof.
  intros Hok e x' Hx'.
  destruct (step_exchange_origin _ _ _ _ Hx') as [(x & Hx & Hev) | (_ & req & _ & _ & ->)].
  - eapply exchange_ok_evolves; [done | by eapply Hok].
  - apply new_exchange_ok.
Qed.

Lemma run_ok (tr : list Input) (w : World) : world_ok w → world_ok (run tr w).
Proof.
  intros Hok. induction tr as [|i tr IH] using rev_ind; [done|].
  rewrite run_snoc. by apply step_ok.
Qed.

Lemma initial_world_ok : world_ok initial_world.
Proof. intros e x Hx. simpl in Hx. by rewrite lookup_nil in Hx. Qed.

(** Once closed, a subscriber stays closed and delivers nothing more. *)
Lemma closed_frozen (tr : list Input) (w : World) (e : nat) (x : Exchange) :
  exchanges w !! e = Some x → closed x = true →
  ∃ x', exchanges (run tr w) !! e = Some x'
        ∧ closed x' = true ∧ emitted x' = emitted x.
Proof.
  intros Hx Hc. induction tr as [|i tr IH] using rev_ind; [by exists x|].
  destruct IH as (y & Hy & Hcy & Hey). rewrite run_snoc.
  destruct (step_keeps_exchange i _ _ _ Hy) as (z & Hz & _ & _ & Hv).
  exists z. split; [done|].
  destruct Hv as [(Hc' & He' & _) | (Hc' & _)]; [split; congruence | congruence].
Qed.

Lemma step_documents_ok (i : Input) (w : World) :
  documents_ok w → documents_ok (step i w).
Proof.
  intros Hok. destruct (step_documents i w) as [[Hf Hd] | (Hf & Hf' & Hd)];
    unfold documents_ok in *; rewrite ?Hf', Hd; [by rewrite Hf|].
  destruct Hok as [[_ ->] | [? _]]; [by right | congruence].
Qed.

Lemma run_documents_ok (tr : list Input) (w : World) :
  documents_ok w → documents_ok (run tr w).
Proof.
  intros Hok. induction tr as [|i tr IH] using rev_ind; [done|].
  rewrite run_snoc. by apply step_documents_ok.
Qed.

Lemma initial_documents_ok : documents_ok initial_world.
Proof. by left. Qed.

Lemma foreignDocument_kept (tr : list Input) (w : World) (d : Document) :
  foreignDocument w = Some d →
  foreignDocument (run tr w) = Some d
  ∧ documentsCreated (run tr w) = documentsCreated w.
Proof.
  intros Hd. induction tr as [|i tr [IHf IHd]] using rev_ind; [done|].
  rewrite run_snoc.
  destruct (step_documents i (run tr w)) as [[Hf Hc] | (Hf & _)]; [|congruence].
  split; congruence.
Qed.

(** ** Callback names along a run *)

Lemma append_inj_l (p a b : string) : p +:+ a = p +:+ b → a = b.
Proof.
  induction p as [|c p IH]; intros H; [exact H|].
  apply IH. by injection H.
Qed.

Lemma callback_name_inj (a b : N) : callback_name a = callback_name b → a = b.
Proof.
  unfold callback_name. intros H.
  apply append_inj_l in H. by apply (inj pretty) in H.
Qed.

Lemma js_increment_exact (n : N) : (n < MAX_EXACT)%N → js_increment n = (n + 1)%N.
Proof. intros Hn. unfold js_increment. by rewrite (proj2 (N.ltb_lt _ _) Hn). Qed.

Lemma js_increment_stuck (n : N) : (MAX_EXACT ≤ n)%N → js_increment n = n.
Proof. intros Hn. unfold js_increment. by rewrite (proj2 (N.ltb_ge _ _) Hn). Qed.

Lemma step_names_ok (i : Input) (w : World) : names_ok w → names_ok (step i w).
Proof.
  intros [Hn Hcb]. split.
  - destruct (input_cases i) as [[req ->]|Hnr].
    + destruct (step_Request req w) as [-> | ->]; [done|].
      simpl. rewrite length_app, Hn. simpl.
      destruct (N.lt_ge_cases (N.of_nat (length (exchanges w))) MAX_EXACT) as [Hlt|Hge].
      * rewrite js_increment_exact by lia. lia.
      * rewrite js_increment_stuck by lia. lia.
    + destruct (step_evolves i w Hnr) as (-> & -> & _). exact Hn.
  - intros e x' Hx'.
    destruct (step_exchange_origin _ _ _ _ Hx')
      as [(x & Hx & Hc & _) | (-> & req & _ & _ & ->)].
    + rewrite Hc. by apply Hcb.
    + simpl. by rewrite Hn.
Qed.

Lemma run_names_ok (tr : list Input) (w : World) : names_ok w → names_ok (run tr w).
Proof.
  intros Hok. induction tr as [|i tr IH] using rev_ind; [done|].
  rewrite run_snoc. by apply step_names_ok.
Qed.

Lemma initial_names_ok : names_ok initial_world.
Proof.
  split; [reflexivity|]. intros i x Hx. simpl in Hx. by rewrite lookup_nil in Hx.
Qed.

Lemma run_requests_length (k : nat) (w : World) :
  length (exchanges (run (replicate k (Request search_request)) w))
  = length (exchanges w) + k.
Proof.
  revert w. induction k as [|k IH]; intros w; [simpl; lia|].
  change (run (replicate (S k) (Request search_request)) w)
    with (run (replicate k (Request search_request)) (step (Request search_request) w)).
  rewrite IH, (step_Request_valid search_request w) by reflexivity.
  simpl. rewrite length_app. simpl. lia.
Qed.

Lemma names_repeat_after (m : nat) :
  N.of_nat m = MAX_EXACT →
  ∃ i j x y,
    i ≠ j
    ∧ exchanges (run (replicate (m + 2) (Request search_request)) initial_world) !! i
      = Some x
    ∧ exchanges (run (replicate (m + 2) (Request search_request)) initial_world) !! j
      = Some y
    ∧ callback x = callback y.
Proof.
  intros Hm.
  set (tr := replicate (m + 2) (Request search_request)).
  pose proof (run_requests_length (m + 2) initial_world) as Hlen.
  fold tr in Hlen. change (length (exchanges initial_world)) with 0 in Hlen.
  destruct (run_names_ok tr _ initial_names_ok) as [_ Hcb].
  destruct (lookup_lt_is_Some_2 (exchanges (run tr initial_world)) m) as [x Hx]; [lia|].
  destruct (lookup_lt_is_Some_2 (exchanges (run tr initial_world)) (S m)) as [y Hy]; [lia|].
  exists m, (S m), x, y.
  split; [lia | split; [done | split; [done|]]].
  rewrite (Hcb _ _ Hx), (Hcb _ _ Hy). f_equal. lia.
Qed.

(** ** What the consumer receives *)

Lemma emitted_by_Some (e : nat) (w : World) (x : Exchange) :
  exchanges w !! e = Some x → emitted_by e w = emitted x.
Proof. intros Hx. unfold emitted_by. by rewrite Hx. Qed.

Lemma parentNode_remove_if_attached (nd : ScriptNode) :
  parentNode (remove_if_attached nd) = None.
Proof. unfold remove_if_attached. by destruct (parentNode nd) eqn:Hp. Qed.

Lemma ownerDocument_remove_if_attached (nd : ScriptNode) :
  ownerDocument (remove_if_attached nd) = ownerDocument nd.
Proof. unfold remove_if_attached. by destruct (parentNode nd). Qed.

Lemma remove_if_attached_twice (nd : ScriptNode) :
  remove_if_attached (remove_if_attached nd) = remove_if_attached nd.
Proof. unfold remove_if_attached. by destruct (parentNode nd) eqn:Hp; simpl; rewrite ?Hp. Qed.

Lemma lookup_after_cancel_closed (e : nat) (y x : Exchange) (w : World) :
  exchanges w !! e = Some x →
  ∃ x', exchanges (after_cancel e y w) !! e = Some x'
        ∧ callback x' = callback y ∧ url x' = url y
        ∧ body x' = body y ∧ finished x' = finished y
        ∧ closed x' = closed y ∧ emitted x' = emitted y
        ∧ parentNode (node x') = None
        ∧ ownerDocument (node x')
          = (if finished y then ownerDocument (node y) else the_foreign_document w).
Proof.
  intros Hx. eexists. split; [by apply (lookup_after_cancel_eq _ _ x)|].
  destruct (finished y) eqn:Hf; simpl; rewrite ?Hf; repeat split; try done.
  - apply parentNode_remove_if_attached.
  - apply ownerDocument_remove_if_attached.
Qed.

Lemma step_Microtask (e : nat) (q : list nat) (w : World) :
  microtasks w = e :: q → step Microtask w = onLoad_deferred e (with_microtasks q w).
Proof. intros Hq. simpl. by rewrite Hq. Qed.

Lemma step_LoadEvent (e : nat) (w : World) (x : Exchange) :
  exchanges w !! e = Some x →
  step (LoadEvent e) w = with_microtasks (microtasks w ++ [e]) w.
Proof. intros Hx. simpl. by rewrite Hx. Qed.

Lemma step_ScriptCalls (name : string) (arg : option JsValue) (e : nat)
    (w : World) (x : Exchange) :
  callbackMap w !! name = Some e → exchanges w !! e = Some x →
  step (ScriptCalls name arg) w
  = set_exchange e (with_received (js_arg arg) x)
      (with_callbackMap (delete (callback x) (callbackMap w)) w).
Proof. intros Hn Hx. simpl. rewrite Hn. by apply response_callback_Some. Qed.

(** The deferred check of a live exchange: what it delivers, and the state
    it leaves. *)
Lemma deferred_check (e : nat) (q : list nat) (w : World) (x : Exchange) :
  exchanges w !! e = Some x → closed x = false → microtasks w = e :: q →
  ∃ x', exchanges (step Microtask w) !! e = Some x'
        ∧ closed x' = true
        ∧ parentNode (node x') = None
        ∧ callbackMap (step Microtask w) !! callback x = None
        ∧ emitted x'
          = emitted x ++
            (if finished x
             then [NextN (Response (ok_response x)); CompleteN]
             else [ErrorN (no_callback_error x)]).
Proof.
  intros Hx Hc Hq. rewrite (step_Microtask _ _ _ Hq).
  assert (exchanges (with_microtasks q w) !! e = Some x) as Hx0 by exact Hx.
  rewrite (onLoad_deferred_live _ _ _ Hx0 Hc).
  set (y := close _). set (w0 := with_callbackMap _ _).
  assert (exchanges w0 !! e = Some x) as Hx1 by exact Hx.
  destruct (lookup_after_cancel_closed e y x w0 Hx1)
    as (x' & Hx' & Hcb & _ & _ & _ & Hcl & Hem & Hp & _).
  exists x'. split; [done | split; [by rewrite Hcl | split; [done | split]]].
  - rewrite callbackMap_after_cancel.
    assert (callback y = callback x) as -> by (subst y; by destruct (finished x)).
    apply lookup_delete_eq.
  - rewrite Hem. subst y. destruct (finished x); simpl; [|done].
    by rewrite <- app_assoc.
Qed.

(** The error handler on a live exchange. *)
Lemma error_event (e : nat) (error : JsValue) (w : World) (x : Exchange) :
  exchanges w !! e = Some x → closed x = false →
  ∃ x', exchanges (step (ErrorEvent e error) w) !! e = Some x'
        ∧ closed x' = true
        ∧ parentNode (node x') = None
        ∧ callbackMap (step (ErrorEvent e error) w) !! callback x = None
        ∧ microtasks (step (ErrorEvent e error) w) = microtasks w
        ∧ emitted x' = emitted x ++ [ErrorN (load_error error x)].
Proof.
  intros Hx Hc. change (step (ErrorEvent e error) w) with (onError e error w).
  rewrite (onError_live _ _ _ _ Hx Hc).
  set (y := close _). set (w0 := with_callbackMap _ _).
  assert (exchanges w0 !! e = Some x) as Hx1 by exact Hx.
  destruct (lookup_after_cancel_closed e y x w0 Hx1)
    as (x' & Hx' & Hcb & _ & _ & _ & Hcl & Hem & Hp & _).
  exists x'. split; [done | split; [by rewrite Hcl | split; [done | split; [|split]]]].
  - rewrite callbackMap_after_cancel. apply lookup_delete_eq.
  - by rewrite microtasks_after_cancel.
  - by rewrite Hem.
Qed.

(** Unsubscribing from a live exchange. *)
Lemma unsubscribe_event (e : nat) (w : World) (x : Exchange) :
  exchanges w !! e = Some x → closed x = false →
  ∃ x', exchanges (step (Unsubscribe e) w) !! e = Some x'
        ∧ closed x' = true
        ∧ parentNode (node x') = None
        ∧ ownerDocument (node x')
          = (if finished x then ownerDocument (node x) else the_foreign_document w)
        ∧ callbackMap (step (Unsubscribe e) w) !! callback x = None
        ∧ emitted x' = emitted x.
Proof.
  intros Hx Hc. change (step (Unsubscribe e) w) with (unsubscribe e w).
  rewrite (unsubscribe_live _ _ _ Hx Hc).
  destruct (lookup_after_cancel_closed e (close x) x w Hx)
    as (x' & Hx' & Hcb & _ & _ & _ & Hcl & Hem & Hp & Ho).
  exists x'. split; [done | split; [by rewrite Hcl | split; [done | split; [done | split]]]].
  - rewrite callbackMap_after_cancel. apply lookup_delete_eq.
  - by rewrite Hem.
Qed.

(** ** The canonical runs of one request *)

Section OneRequest.
Variable req : HttpRequest.
Variable w : World.
Hypothesis valid_method : method req = "JSONP".
Hypothesis valid_responseType : responseType req = "json".
Hypothesis valid_headers : headers req = [].
Hypothesis quiescent : microtasks w = [].

Local Abbreviation e := (length (exchanges w)).
Local Abbreviation cb := (callback_name (nextRequestId w)).
Local Abbreviation u := (replace_placeholder cb (urlWithParams req)).

Lemma subscribed_exchange :
  exchanges (step (Request req) w) !! e = Some (new_exchange cb u)
  ∧ callbackMap (step (Request req) w) !! cb = Some e
  ∧ microtasks (step (Request req) w) = [].
Proof using valid_method valid_responseType valid_headers quiescent.
  rewrite step_Request_valid by done. simpl.
  split; [by apply list_lookup_middle | split; [apply lookup_insert_eq | done]].
Qed.

Lemma run_callback_then_load (arg : option JsValue) :
  emitted_by e (run [Request req; ScriptCalls cb arg; LoadEvent e; Microtask] w)
  = [NextN Sent;
     NextN (Response
       (new_HttpResponse {| resp_body := js_arg arg; resp_status := 200;
                            resp_statusText := "OK"; resp_url := u |}));
     CompleteN].
Proof using valid_method valid_responseType valid_headers quiescent.
  destruct subscribed_exchange as (Hx & Hcb & Hq).
  cbn [run foldl]. set (w1 := step (Request req) w) in *.
  rewrite (step_ScriptCalls _ _ _ _ _ Hcb Hx).
  set (x2 := with_received _ _). set (w2 := set_exchange e x2 _).
  assert (exchanges w2 !! e = Some x2) as Hx2
    by (by apply (lookup_set_exchange_eq _ _ (new_exchange cb u))).
  rewrite (step_LoadEvent _ _ _ Hx2).
  set (w3 := with_microtasks _ w2).
  assert (microtasks w3 = [e]) as Hq3 by (subst w3 w2; simpl; by rewrite Hq).
  destruct (deferred_check e [] w3 x2 Hx2 eq_refl Hq3) as (x' & Hx' & _ & _ & _ & Hem).
  by rewrite (emitted_by_Some _ _ _ Hx'), Hem.
Qed.

Lemma run_load_then_callback (arg : option JsValue) :
  emitted_by e (run [Request req; LoadEvent e; ScriptCalls cb arg; Microtask] w)
  = [NextN Sent;
     NextN (Response
       (new_HttpResponse {| resp_body := js_arg arg; resp_status := 200;
                            resp_statusText := "OK"; resp_url := u |}));
     CompleteN].
Proof using valid_method valid_responseType valid_headers quiescent.
  destruct subscribed_exchange as (Hx & Hcb & Hq).
  cbn [run foldl]. set (w1 := step (Request req) w) in *.
  rewrite (step_LoadEvent _ _ _ Hx).
  set (w2 := with_microtasks _ w1).
  assert (exchanges w2 !! e = Some (new_exchange cb u)) as Hx2 by exact Hx.
  assert (callbackMap w2 !! cb = Some e) as Hcb2 by exact Hcb.
  rewrite (step_ScriptCalls _ _ _ _ _ Hcb2 Hx2).
  set (x3 := with_received _ _). set (w3 := set_exchange e x3 _).
  assert (exchanges w3 !! e = Some x3) as Hx3
    by (by apply (lookup_set_exchange_eq _ _ (new_exchange cb u))).
  assert (microtasks w3 = [e]) as Hq3 by (subst w3 w2; simpl; by rewrite Hq).
  destruct (deferred_check e [] w3 x3 Hx3 eq_refl Hq3) as (x' & Hx' & _ & _ & _ & Hem).
  by rewrite (emitted_by_Some _ _ _ Hx'), Hem.
Qed.

Lemma run_load_without_callback :
  emitted_by e (run [Request req; LoadEvent e; Microtask] w)
  = [NextN Sent;
     ErrorN {| err_error := JsErrorObject JSONP_ERR_NO_CALLBACK; err_status := 0;
               err_statusText := "JSONP Error"; err_url := u |}].
Proof using valid_method valid_responseType valid_headers quiescent.
  destruct subscribed_exchange as (Hx & Hcb & Hq).
  cbn [run foldl]. set (w1 := step (Request req) w) in *.
  rewrite (step_LoadEvent _ _ _ Hx).
  set (w2 := with_microtasks _ w1).
  assert (exchanges w2 !! e = Some (new_exchange cb u)) as Hx2 by exact Hx.
  assert (microtasks w2 = [e]) as Hq2 by (subst w2; simpl; by rewrite Hq).
  destruct (deferred_check e [] w2 _ Hx2 eq_refl Hq2) as (x' & Hx' & _ & _ & _ & Hem).
  by rewrite (emitted_by_Some _ _ _ Hx'), Hem.
Qed.

Lemma run_callback_then_error (arg : option JsValue) (error : JsValue) :
  emitted_by e (run [Request req; ScriptCalls cb arg; ErrorEvent e error] w)
  = [NextN Sent;
     ErrorN {| err_error := error; err_status := 0;
               err_statusText := "JSONP Error"; err_url := u |}].
Proof using valid_method valid_responseType valid_headers quiescent.
  destruct subscribed_exchange as (Hx & Hcb & Hq).
  cbn [run foldl]. set (w1 := step (Request req) w) in *.
  rewrite (step_ScriptCalls _ _ _ _ _ Hcb Hx).
  set (x2 := with_received _ _). set (w2 := set_exchange e x2 _).
  assert (exchanges w2 !! e = Some x2) as Hx2
    by (by apply (lookup_set_exchange_eq _ _ (new_exchange cb u))).
  destruct (error_event e error w2 x2 Hx2 eq_refl) as (x' & Hx' & _ & _ & _ & _ & Hem).
  by rewrite (emitted_by_Some _ _ _ Hx'), Hem.
Qed.
End OneRequest.

Lemma cleaned_twice (x : Exchange) : cleaned (cleaned x) = cleaned x.
Proof. unfold cleaned. simpl. by rewrite remove_if_attached_twice. Qed.

Lemma cleaned_detached (x : Exchange) : parentNode (node x) = None → cleaned x = x.
Proof.
  intros Hp. destruct x as [cb u nd b f c em]. unfold cleaned, remove_if_attached.
  simpl in *. by rewrite Hp.
Qed.

Lemma cleanup_twice (e : nat) (w : World) : cleanup e (cleanup e w) = cleanup e w.
Proof.
  destruct (exchanges w !! e) as [x|] eqn:Hx.
  - rewrite (cleanup_Some _ _ _ Hx).
    set (w0 := with_callbackMap _ w).
    assert (exchanges w0 !! e = Some x) as Hx0 by exact Hx.
    rewrite (cleanup_Some e _ (cleaned x) (lookup_set_exchange_eq _ _ _ _ Hx0)).
    rewrite cleaned_twice.
    unfold set_exchange, with_exchanges, with_callbackMap. simpl.
    by rewrite list_insert_insert_eq, delete_delete_eq.
  - rewrite (cleanup_None _ _ Hx). by apply cleanup_None.
Qed.

(** ** The callback map along a run *)

Lemma step_registry (i : Input) (w : World) :
  (∀ req, i ≠ Request req) →
  (callbackMap (step i w) = callbackMap w ∧ exchanges (step i w) = exchanges w)
  ∨ ∃ e x, exchanges w !! e = Some x
           ∧ callbackMap (step i w) = delete (callback x) (callbackMap w)
           ∧ ∀ e', e ≠ e' → exchanges (step i w) !! e' = exchanges w !! e'.
Proof.
  intros Hreq. destruct i as [req|name arg|e|e error| |e]; simpl.
  - by destruct (Hreq req).
  - destruct (callbackMap w !! name) as [e|]; [|by left].
    destruct (exchanges w !! e) as [x|] eqn:Hx.
    + right. exists e, x. rewrite (response_callback_Some _ _ _ _ Hx).
      split; [done | split; [done|]]. intros e' Hne.
      by rewrite lookup_set_exchange_ne.
    + left. unfold response_callback. by rewrite Hx.
  - left. by destruct (exchanges w !! e).
  - destruct (exchanges w !! e) as [x|] eqn:Hx.
    + right. exists e, x. split; [done|]. destruct (closed x) eqn:Hc.
      * rewrite (onError_closed _ _ _ _ Hx Hc). split; [done|].
        intros e' Hne. by rewrite lookup_set_exchange_ne.
      * rewrite (onError_live _ _ _ _ Hx Hc). split.
        -- rewrite callbackMap_after_cancel. simpl. apply delete_delete_eq.
        -- intros e' Hne. by rewrite lookup_after_cancel_ne.
    + left. by rewrite (onError_None _ _ _ Hx).
  - destruct (microtasks w) as [|e q]; [by left|].
    destruct (exchanges w !! e) as [x|] eqn:Hx.
    + assert (exchanges (with_microtasks q w) !! e = Some x) as Hx0 by exact Hx.
      right. exists e, x. split; [done|]. destruct (closed x) eqn:Hc.
      * rewrite (onLoad_deferred_closed _ _ _ Hx0 Hc). split; [done|].
        intros e' Hne. by rewrite lookup_set_exchange_ne.
      * rewrite (onLoad_deferred_live _ _ _ Hx0 Hc). split.
        -- rewrite callbackMap_after_cancel.
           assert (∀ z, callback (close z) = callback z) as -> by done.
           destruct (finished x); simpl; apply delete_delete_eq.
        -- intros e' Hne. by rewrite lookup_after_cancel_ne.
    + left. by rewrite onLoad_deferred_None.
  - destruct (exchanges w !! e) as [x|] eqn:Hx.
    + destruct (closed x) eqn:Hc.
      * left. rewrite unsubscribe_closed; [done|]. by rewrite (is_closed_Some _ _ _ Hx).
      * right. exists e, x. rewrite (unsubscribe_live _ _ _ Hx Hc).
        split; [done | split; [by rewrite callbackMap_after_cancel|]].
        intros e' Hne. by rewrite lookup_after_cancel_ne.
    + left. rewrite unsubscribe_closed; [done|]. unfold is_closed. by rewrite Hx.
Qed.

Lemma step_registry_ok (i : Input) (w : World) :
  registry_ok w → registry_ok (step i w).
Proof.
  intros Hok. destruct (input_cases i) as [[req ->]|Hnr].
  - destruct (step_Request req w) as [-> | ->]; [done|].
    intros name e. simpl. rewrite lookup_insert_Some.
    intros [[<- <-] | [Hne Hn]].
    + eexists. split; [by apply list_lookup_middle | done].
    + destruct (Hok _ _ Hn) as (x & Hx & Hrest).
      exists x. split; [by apply lookup_app_l_Some | done].
  - destruct (step_registry i w Hnr) as [[Hcm Hex] | (e & x & Hx & Hcm & Hother)].
    + intros name e'. rewrite Hcm, Hex. apply Hok.
    + intros name e'. rewrite Hcm, lookup_delete_Some. intros [Hne Hn].
      destruct (Hok _ _ Hn) as (x' & Hx' & Hcb & Hrest).
      exists x'. split; [|done]. rewrite Hother; [done|].
      intros <-. congruence.
Qed.

Lemma run_registry_ok (tr : list Input) (w : World) :
  registry_ok w → registry_ok (run tr w).
Proof.
  intros Hok. induction tr as [|i tr IH] using rev_ind; [done|].
  rewrite run_snoc. by apply step_registry_ok.
Qed.

Lemma initial_registry_ok : registry_ok initial_world.
Proof. intros name e Hn. simpl in Hn. by rewrite lookup_empty in Hn. Qed.

(** In a run that has started at most [2^53] exchanges, an exchange whose
    subscriber has closed, or whose callback has run, has no entry in the
    callback map, at that moment and ever after. *)
Lemma ended_exchange_unregistered (tr : list Input) (e : nat) (x : Exchange) :
  (N.of_nat (length (exchanges (run tr initial_world))) ≤ MAX_EXACT)%N →
  exchanges (run tr initial_world) !! e = Some x →
  closed x = true ∨ finished x = true →
  callbackMap (run tr initial_world) !! callback x = None.
Proof.
  intros Hlen Hx Hend.
  destruct (callbackMap (run tr initial_world) !! callback x) as [e'|] eqn:Hn; [|done].
  destruct (run_registry_ok tr _ initial_registry_ok _ _ Hn) as (x' & Hx' & Hcb & Hc & Hf).
  destruct (run_names_ok tr _ initial_names_ok) as [_ Hnames].
  assert (e' = e) as ->.
  { pose proof (Hnames _ _ Hx) as H1. pose proof (Hnames _ _ Hx') as H2.
    rewrite Hcb, H1 in H2. apply callback_name_inj in H2.
    apply lookup_lt_Some in Hx, Hx'. lia. }
  assert (x' = x) as -> by congruence.
  destruct Hend; congruence.
Qed.

(** ** Callback names are plain text *)

Lemma no_dollar_app (a b : string) :
  no_dollar (a +:+ b) = no_dollar a && no_dollar b.
Proof.
  induction a as [|c a IH]; [done|].
  change (String c a +:+ b) with (String c (a +:+ b)). simpl.
  by rewrite IH, andb_assoc.
Qed.

Lemma no_dollar_pretty_N_go (n : N) (s : string) :
  no_dollar s = true → no_dollar (pretty_N_go n s) = true.
Proof.
  revert s. induction (N.lt_wf_0 n) as [n _ IH]. intros s Hs.
  destruct (decide (n = 0)%N) as [->|Hn]; [by rewrite pretty_N_go_0|].
  rewrite pretty_N_go_step by lia.
  apply IH; [apply N.div_lt; lia|].
  simpl. rewrite Hs, andb_true_r.
  unfold pretty_N_char. by repeat case_match.
Qed.

(** The replacement text [`=${callback}$1`] has no [$] besides the one of
    [$1]. *)
Lemma callback_name_no_dollar (n : N) : no_dollar (callback_name n) = true.
Proof.
  unfold callback_name. rewrite no_dollar_app. apply andb_true_intro. split; [done|].
  unfold pretty, pretty_N. case_decide; [done|].
  by apply no_dollar_pretty_N_go.
Qed.

Lemma exchanges_after_cancel (e : nat) (y : Exchange) (w : World) :
  exchanges (after_cancel e y w)
  = <[e := if finished y then cleaned y else adopted (the_foreign_document w) y]>
      (exchanges w).
Proof.
  unfold after_cancel. destruct (finished y); simpl; by rewrite ?exchanges_ensure.
Qed.

(** ** From a load event to the terminal event *)

Lemma run_app (tr later : list Input) (w : World) :
  run (tr ++ later) w = run later (run tr w).
Proof. unfold run. apply foldl_app. Qed.

Lemma run_cons (i : Input) (tr : list Input) (w : World) :
  run (i :: tr) w = run tr (step i w).
Proof. done. Qed.

Lemma microtasks_onLoad_deferred (e : nat) (w : World) :
  microtasks (onLoad_deferred e w) = microtasks w.
Proof.
  destruct (exchanges w !! e) as [x|] eqn:Hx; [|by rewrite onLoad_deferred_None].
  destruct (closed x) eqn:Hc.
  - by rewrite (onLoad_deferred_closed _ _ _ Hx Hc).
  - by rewrite (onLoad_deferred_live _ _ _ Hx Hc), microtasks_after_cancel.
Qed.

(** A microtask scheduled for another exchange leaves this one alone. *)
Lemma step_Microtask_other (e e' : nat) (q : list nat) (w : World) (x : Exchange) :
  microtasks w = e' :: q → e' ≠ e → exchanges w !! e = Some x →
  exchanges (step Microtask w) !! e = Some x ∧ microtasks (step Microtask w) = q.
Proof.
  intros Hq Hne Hx. rewrite (step_Microtask _ _ _ Hq).
  split; [|by rewrite microtasks_onLoad_deferred].
  destruct (exchanges w !! e') as [x'|] eqn:Hx'; [|by rewrite onLoad_deferred_None].
  assert (exchanges (with_microtasks q w) !! e' = Some x') as Hx0 by exact Hx'.
  destruct (closed x') eqn:Hc.
  - by rewrite (onLoad_deferred_closed _ _ _ Hx0 Hc), lookup_set_exchange_ne.
  - by rewrite (onLoad_deferred_live _ _ _ Hx0 Hc), lookup_after_cancel_ne.
Qed.

(** Once the microtasks that are queued have run, a live exchange whose
    check was among them has got its terminal event. *)
Lemma drain_microtasks (q : list nat) (w : World) (e : nat) (x : Exchange) :
  microtasks w = q → e ∈ q → exchanges w !! e = Some x → closed x = false →
  ∃ x', exchanges (run (replicate (length q) Microtask) w) !! e = Some x'
        ∧ closed x' = true
        ∧ emitted x'
          = emitted x ++
            (if finished x
             then [NextN (Response (ok_response x)); CompleteN]
             else [ErrorN (no_callback_error x)]).
Proof.
  revert w. induction q as [|e' q IH]; intros w Hq Hin Hx Hc.
  - by apply elem_of_nil in Hin.
  - simpl length. simpl replicate. rewrite run_cons.
    destruct (decide (e' = e)) as [->|Hne].
    + destruct (deferred_check e q w x Hx Hc Hq) as (x1 & Hx1 & Hc1 & _ & _ & Hem).
      destruct (closed_frozen (replicate (length q) Microtask) _ e x1 Hx1 Hc1)
        as (x' & Hx' & Hc' & Hem').
      exists x'. split; [done | split; [done | congruence]].
    + apply elem_of_cons in Hin as [->|Hin]; [done|].
      destruct (step_Microtask_other e e' q w x Hq Hne Hx) as [Hx1 Hq1].
      by apply IH.
Qed.

(** ** When the foreign document comes to exist *)

Lemma adoption_ok_same (w w' : World) :
  exchanges w' = exchanges w → foreignDocument w' = foreignDocument w →
  adoption_ok w → adoption_ok w'.
Proof. unfold adoption_ok. by intros -> ->. Qed.

(** One exchange is rewritten, and either the document is left alone and
    the exchange has ended without an answer just if it had before, or the
    document exists and the exchange has so ended. *)
Lemma adoption_ok_insert (w w' : World) (e : nat) (x y : Exchange) :
  adoption_ok w → exchanges w !! e = Some x →
  exchanges w' = <[e := y]> (exchanges w) →
  ownerDocument (node y)
  = (if ended_unanswered y then CreatedDocument 0 else MainDocument) →
  (foreignDocument w' = foreignDocument w ∧ ended_unanswered y = ended_unanswered x)
  ∨ (foreignDocument w' = Some (CreatedDocument 0) ∧ ended_unanswered y = true) →
  adoption_ok w'.
Proof.
  intros [Hown Hdoc] Hx Hex Hy Halt.
  assert (e < length (exchanges w)) as Hlt by (by eapply lookup_lt_Some).
  split.
  - intros e' x'. rewrite Hex, list_lookup_insert_Some.
    intros [(<- & <- & _) | [_ Hx']]; [done | by eapply Hown].
  - destruct Halt as [[Hf Hs] | [Hf Hs]].
    + destruct Hdoc as [[Hn Hall] | (Hd & e0 & x0 & Hx0 & Hs0)].
      * left. split; [congruence|]. intros e' x'.
        rewrite Hex, list_lookup_insert_Some.
        intros [(<- & <- & _) | [_ Hx']]; [|by eapply Hall].
        rewrite Hs. by eapply Hall.
      * right. split; [congruence|]. destruct (decide (e0 = e)) as [->|Hne].
        -- exists e, y. rewrite Hex, list_lookup_insert_eq by done.
           split; [done|]. rewrite Hs. congruence.
        -- exists e0, x0. by rewrite Hex, list_lookup_insert_ne.
    + right. split; [done|]. exists e, y.
      by rewrite Hex, list_lookup_insert_eq.
Qed.

Lemma the_foreign_document_ok (w : World) :
  documents_ok w → the_foreign_document w = CreatedDocument 0.
Proof.
  unfold the_foreign_document. by intros [[-> ->] | [-> _]].
Qed.

Lemma foreignDocument_after_cancel (e : nat) (y : Exchange) (w : World) :
  foreignDocument (after_cancel e y w)
  = if finished y then foreignDocument w else Some (the_foreign_document w).
Proof.
  unfold after_cancel. destruct (finished y); simpl; [done|].
  apply foreignDocument_ensure.
Qed.

(** The cancellation handler, run for a live exchange. *)
Lemma adoption_ok_after_cancel (e : nat) (y x : Exchange) (w : World) :
  documents_ok w → adoption_ok w →
  exchanges w !! e = Some x → closed x = false →
  closed y = true → finished y = finished x →
  ownerDocument (node y) = ownerDocument (node x) →
  adoption_ok (after_cancel e y w).
Proof.
  intros Hdocs Hok Hx Hc Hcy Hfy Hoy.
  pose proof (the_foreign_document_ok w Hdocs) as Hfd.
  assert (ownerDocument (node x) = MainDocument) as Hmain.
  { destruct Hok as [Hown _]. rewrite (Hown _ _ Hx). unfold ended_unanswered.
    by rewrite Hc. }
  assert (ended_unanswered x = false) as Hsx by (unfold ended_unanswered; by rewrite Hc).
  apply (adoption_ok_insert w _ e x
           (if finished y then cleaned y else adopted (the_foreign_document w) y) Hok Hx).
  - apply exchanges_after_cancel.
  - destruct (finished y) eqn:Hf; unfold ended_unanswered; simpl; rewrite Hcy, Hf; simpl.
    + rewrite ownerDocument_remove_if_attached. congruence.
    + done.
  - rewrite foreignDocument_after_cancel.
    destruct (finished y) eqn:Hf; [left | right];
      unfold ended_unanswered; simpl; rewrite Hcy, Hf; simpl.
    + split; [done|]. by rewrite Hc.
    + by rewrite Hfd.
Qed.

(** An event that finds its exchange closed runs cleanup again. *)
Lemma adoption_ok_cleaned (e : nat) (x : Exchange) (w w' : World) :
  adoption_ok w → exchanges w !! e = Some x →
  exchanges w' = <[e := cleaned x]> (exchanges w) →
  foreignDocument w' = foreignDocument w →
  adoption_ok w'.
Proof.
  intros Hok Hx Hex Hf.
  apply (adoption_ok_insert w w' e x (cleaned x) Hok Hx Hex); [|by left].
  simpl. rewrite ownerDocument_remove_if_attached.
  destruct Hok as [Hown _]. by rewrite (Hown _ _ Hx).
Qed.

Lemma step_adoption_ok (i : Input) (w : World) :
  registry_ok w → documents_ok w → adoption_ok w → adoption_ok (step i w).
Proof.
  intros Hreg Hdocs Hok.
  destruct i as [req|name arg|e|e error| |e]; simpl.
  - destruct (step_Request req w) as [Heq | Heq]; simpl in Heq; rewrite Heq; [done|].
    assert (∀ e x, exchanges (subscribed req w) !! e = Some x →
              exchanges w !! e = Some x
              ∨ (ended_unanswered x = false ∧ ownerDocument (node x) = MainDocument))
      as Hnew.
    { intros e x. simpl. rewrite lookup_app_Some. intros [Hx | [_ Hx]]; [by left|].
      destruct (e - length (exchanges w)) as [|k]; simpl in Hx; [|by destruct k].
      injection Hx as <-. by right. }
    destruct Hok as [Hown Hdoc]. split.
    + intros e x Hx. destruct (Hnew e x Hx) as [Hx0 | [-> ->]]; [by eapply Hown | done].
    + destruct Hdoc as [[Hn Hall] | (Hd & e0 & x0 & Hx0 & Hs0)].
      * left. split; [done|]. intros e x Hx.
        destruct (Hnew e x Hx) as [Hx0 | [-> _]]; [by eapply Hall | done].
      * right. split; [done|]. exists e0, x0. split; [|done].
        simpl. by apply lookup_app_l_Some.
  - destruct (callbackMap w !! name) as [e|] eqn:Hn; [|done].
    destruct (Hreg _ _ Hn) as (x & Hx & _ & Hc & Hf).
    rewrite (response_callback_Some _ _ _ _ Hx).
    assert (ownerDocument (node x) = MainDocument) as Hmain.
    { destruct Hok as [Hown _]. rewrite (Hown _ _ Hx). unfold ended_unanswered.
      by rewrite Hc. }
    apply (adoption_ok_insert w _ e x (with_received (js_arg arg) x) Hok Hx); [done| |left].
    + unfold ended_unanswered. simpl. by rewrite andb_false_r.
    + split; [done|]. unfold ended_unanswered. simpl. by rewrite Hc.
  - destruct (exchanges w !! e); [|done]. by apply (adoption_ok_same w).
  - destruct (exchanges w !! e) as [x|] eqn:Hx; [|by rewrite onError_None].
    destruct (closed x) eqn:Hc.
    + rewrite (onError_closed _ _ _ _ Hx Hc). by apply (adoption_ok_cleaned e x w).
    + rewrite (onError_live _ _ _ _ Hx Hc).
      apply (adoption_ok_after_cancel e _ x); try done.
      simpl. apply ownerDocument_remove_if_attached.
  - destruct (microtasks w) as [|e q]; [done|].
    destruct (exchanges w !! e) as [x|] eqn:Hx;
      [|rewrite onLoad_deferred_None by done; by apply (adoption_ok_same w)].
    assert (exchanges (with_microtasks q w) !! e = Some x) as Hx0 by exact Hx.
    destruct (closed x) eqn:Hc.
    + rewrite (onLoad_deferred_closed _ _ _ Hx0 Hc).
      by apply (adoption_ok_cleaned e x w).
    + rewrite (onLoad_deferred_live _ _ _ Hx0 Hc).
      apply (adoption_ok_after_cancel e _ x); try done.
      * destruct (finished x) eqn:Hf; exact Hf.
      * destruct (finished x); simpl; apply ownerDocument_remove_if_attached.
  - destruct (exchanges w !! e) as [x|] eqn:Hx.
    + destruct (closed x) eqn:Hc.
      * rewrite unsubscribe_closed; [done|]. by rewrite (is_closed_Some _ _ _ Hx).
      * rewrite (unsubscribe_live _ _ _ Hx Hc).
        by apply (adoption_ok_after_cancel e _ x).
    + rewrite unsubscribe_closed; [done|]. unfold is_closed. by rewrite Hx.
Qed.

Lemma initial_adoption_ok : adoption_ok initial_world.
Proof.
  split; [|left; split; [done|]]; intros e x Hx; simpl in Hx;
    by rewrite lookup_nil in Hx.
Qed.

Lemma run_adoption_ok (tr : list Input) : adoption_ok (run tr initial_world).
Proof.
  induction tr as [|i tr IH] using rev_ind; [apply initial_adoption_ok|].
  rewrite run_snoc. apply step_adoption_ok; [| |done].
  - apply run_registry_ok, initial_registry_ok.
  - apply run_documents_ok, initial_documents_ok.
Qed.

(** * The claims *)

(** C1. The outcome of a load. When the check that [onLoad] deferred runs
    for a live exchange, it delivers, if the callback has run, a response
    with status 200, status text [OK], the rewritten URL and the stored
    body, or the body [null] when what is stored is [undefined], followed
    by the completion; and if the callback has not run, an error response
    with status 0 whose error is
    [Error("JSONP injected script did not invoke callback.")]. A call of
    the registered callback stores its argument and sets the flag; a call
    without argument stores [undefined], the value JavaScript gives to a
    missing argument, and still counts as a call. Hence, for a valid
    request subscribed in a world with no microtask pending: callback with
    payload [P], load, microtask delivers [Sent], the response with body
    [P], completion; callback without argument, load, microtask delivers
    [Sent], the response with body [null], which is the body of a response
    without content, completion; load, microtask without any callback
    delivers [Sent] and the error. *)
Theorem load_complete_outcome :
  (∀ w e q x,
     exchanges w !! e = Some x → closed x = false → microtasks w = e :: q →
     emitted_by e (step Microtask w)
     = emitted x ++
       (if finished x
        then [NextN (Response {| resp_body := match body x with
                                              | JsUndefined => JsNull
                                              | given => given
                                              end;
                                 resp_status := 200;
                                 resp_statusText := "OK"; resp_url := url x |});
              CompleteN]
        else [ErrorN {| err_error :=
                          JsErrorObject "JSONP injected script did not invoke callback.";
                        err_status := 0; err_statusText := "JSONP Error";
                        err_url := url x |}]))
  ∧ (∀ w name arg e x,
       callbackMap w !! name = Some e → exchanges w !! e = Some x →
       ∃ x', exchanges (step (ScriptCalls name arg) w) !! e = Some x'
             ∧ finished x' = true ∧ body x' = js_arg arg
             ∧ url x' = url x ∧ closed x' = closed x ∧ emitted x' = emitted x)
  ∧ (∀ req w,
       method req = "JSONP" → responseType req = "json" → headers req = [] →
       microtasks w = [] →
       (∀ P,
          P ≠ JsUndefined →
          emitted_by (length (exchanges w))
            (run [Request req;
                  ScriptCalls ("ng_jsonp_callback_" +:+ pretty (nextRequestId w)) (Some P);
                  LoadEvent (length (exchanges w)); Microtask] w)
          = [NextN Sent;
             NextN (Response
               {| resp_body := P; resp_status := 200; resp_statusText := "OK";
                  resp_url :=
                    replace_placeholder ("ng_jsonp_callback_" +:+ pretty (nextRequestId w))
                      (urlWithParams req) |});
             CompleteN])
       ∧ (∀ arg,
            js_arg arg = JsUndefined →
            emitted_by (length (exchanges w))
              (run [Request req;
                    ScriptCalls ("ng_jsonp_callback_" +:+ pretty (nextRequestId w)) arg;
                    LoadEvent (length (exchanges w)); Microtask] w)
            = [NextN Sent;
               NextN (Response
                 {| resp_body := JsNull; resp_status := 200; resp_statusText := "OK";
                    resp_url :=
                      replace_placeholder
                        ("ng_jsonp_callback_" +:+ pretty (nextRequestId w))
                        (urlWithParams req) |});
               CompleteN])
       ∧ emitted_by (length (exchanges w))
           (run [Request req; LoadEvent (length (exchanges w)); Microtask] w)
         = [NextN Sent;
            ErrorN
              {| err_error :=
                   JsErrorObject "JSONP injected script did not invoke callback.";
                 err_status := 0; err_statusText := "JSONP Error";
                 err_url :=
                   replace_placeholder ("ng_jsonp_callback_" +:+ pretty (nextRequestId w))
                     (urlWithParams req) |}]).
Proof.
  split; [|split].
  - intros w e q x Hx Hc Hq.
    destruct (deferred_check e q w x Hx Hc Hq) as (x' & Hx' & _ & _ & _ & Hem).
    by rewrite (emitted_by_Some _ _ _ Hx'), Hem.
  - intros w name arg e x Hn Hx.
    rewrite (step_ScriptCalls _ _ _ _ _ Hn Hx).
    eexists. split; [by eapply lookup_set_exchange_eq | done].
  - intros req w Hm Hr Hh Hq. split; [|split].
    + intros P HP.
      etransitivity; [exact (run_callback_then_load req w Hm Hr Hh Hq (Some P))|].
      unfold new_HttpResponse. simpl. by destruct P.
    + intros arg Harg.
      etransitivity; [exact (run_callback_then_load req w Hm Hr Hh Hq arg)|].
      unfold new_HttpResponse. simpl. by rewrite Harg.
    + exact (run_load_without_callback req w Hm Hr Hh Hq).
Qed.

Lemma load_complete_outcome_witness :
  emitted_by 0 (step Microtask answered_world)
  = [NextN Sent;
     NextN (Response {| resp_body := JsString "hi"; resp_status := 200;
                        resp_statusText := "OK"; resp_url := search_url |});
     CompleteN]
  ∧ emitted_by 0 (step Microtask loaded_world)
    = [NextN Sent;
       ErrorN {| err_error :=
                   JsErrorObject "JSONP injected script did not invoke callback.";
                 err_status := 0; err_statusText := "JSONP Error";
                 err_url := search_url |}]
  ∧ (∃ x', exchanges (step (ScriptCalls "ng_jsonp_callback_0" None) sent_world) !! 0
           = Some x'
           ∧ finished x' = true ∧ body x' = JsUndefined)
  ∧ emitted_by 0
      (run [Request search_request;
            ScriptCalls "ng_jsonp_callback_0" (Some (JsString "hi"));
            LoadEvent 0; Microtask] initial_world)
    = [NextN Sent;
       NextN (Response {| resp_body := JsString "hi"; resp_status := 200;
                          resp_statusText := "OK"; resp_url := search_url |});
       CompleteN]
  ∧ emitted_by 0
      (run [Request search_request; ScriptCalls "ng_jsonp_callback_0" None;
            LoadEvent 0; Microtask] initial_world)
    = [NextN Sent;
       NextN (Response {| resp_body := JsNull; resp_status := 200;
                          resp_statusText := "OK"; resp_url := search_url |});
       CompleteN].
Proof.
  split; [|split; [|split; [|split]]].
  - exact (proj1 load_complete_outcome answered_world 0 []
             answered_exchange eq_refl eq_refl eq_refl).
  - exact (proj1 load_complete_outcome loaded_world 0 []
             (new_exchange "ng_jsonp_callback_0" search_url) eq_refl eq_refl eq_refl).
  - destruct (proj1 (proj2 load_complete_outcome) sent_world "ng_jsonp_callback_0" None 0
                (new_exchange "ng_jsonp_callback_0" search_url) eq_refl eq_refl)
      as (x' & Hx' & Hf & Hb & _).
    exists x'. split; [exact Hx' | split; [exact Hf | exact Hb]].
  - refine (proj1 (proj2 (proj2 load_complete_outcome) search_request initial_world
                     eq_refl eq_refl eq_refl eq_refl) (JsString "hi") _).
    discriminate.
  - exact (proj1 (proj2 (proj2 (proj2 load_complete_outcome) search_request initial_world
                           eq_refl eq_refl eq_refl eq_refl)) None eq_refl).
Defined.

(** C2. The decision is taken one microtask after the load event. The
    load handler delivers nothing and reads nothing: it leaves the world
    as it was but for one more entry at the end of the microtask queue.
    The flag is read when that entry runs, so a call of the callback that
    happens while the entry is still queued is seen: the check then
    delivers the response built from the argument of that call. For a valid
    request both orders, callback before the load event (a script that
    calls back while it is evaluated) and callback between the load event
    and the deferred check, end in the same success. *)
Theorem decision_after_one_microtask :
  (∀ w e x,
     exchanges w !! e = Some x →
     step (LoadEvent e) w = with_microtasks (microtasks w ++ [e]) w)
  ∧ (∀ w e q x name arg,
       exchanges w !! e = Some x → closed x = false → microtasks w = e :: q →
       callbackMap w !! name = Some e →
       emitted_by e (run [ScriptCalls name arg; Microtask] w)
       = emitted x ++
         [NextN (Response
            (new_HttpResponse {| resp_body := js_arg arg; resp_status := 200;
                                 resp_statusText := "OK"; resp_url := url x |}));
          CompleteN])
  ∧ (∀ req w arg,
       method req = "JSONP" → responseType req = "json" → headers req = [] →
       microtasks w = [] →
       emitted_by (length (exchanges w))
         (run [Request req;
               ScriptCalls ("ng_jsonp_callback_" +:+ pretty (nextRequestId w)) arg;
               LoadEvent (length (exchanges w)); Microtask] w)
       = [NextN Sent;
          NextN (Response
            (new_HttpResponse
               {| resp_body := js_arg arg; resp_status := 200; resp_statusText := "OK";
                  resp_url :=
                    replace_placeholder ("ng_jsonp_callback_" +:+ pretty (nextRequestId w))
                      (urlWithParams req) |}));
          CompleteN]
       ∧ emitted_by (length (exchanges w))
           (run [Request req; LoadEvent (length (exchanges w));
                 ScriptCalls ("ng_jsonp_callback_" +:+ pretty (nextRequestId w)) arg;
                 Microtask] w)
         = [NextN Sent;
            NextN (Response
              (new_HttpResponse
                 {| resp_body := js_arg arg; resp_status := 200; resp_statusText := "OK";
                    resp_url :=
                      replace_placeholder
                        ("ng_jsonp_callback_" +:+ pretty (nextRequestId w))
                        (urlWithParams req) |}));
            CompleteN]).
Proof.
  split; [|split].
  - intros w e x Hx. by apply (step_LoadEvent _ _ x).
  - intros w e q x name arg Hx Hc Hq Hn.
    cbn [run foldl]. rewrite (step_ScriptCalls _ _ _ _ _ Hn Hx).
    set (x1 := with_received _ _). set (w1 := set_exchange e x1 _).
    assert (exchanges w1 !! e = Some x1) as Hx1
      by (by apply (lookup_set_exchange_eq _ _ x)).
    destruct (deferred_check e q w1 x1 Hx1 Hc Hq) as (x' & Hx' & _ & _ & _ & Hem).
    by rewrite (emitted_by_Some _ _ _ Hx'), Hem.
  - intros req w arg Hm Hr Hh Hq. split.
    + exact (run_callback_then_load req w Hm Hr Hh Hq arg).
    + exact (run_load_then_callback req w Hm Hr Hh Hq arg).
Qed.

Lemma decision_after_one_microtask_witness :
  step (LoadEvent 0) sent_world = with_microtasks [0] sent_world
  ∧ emitted_by 0
      (run [ScriptCalls "ng_jsonp_callback_0" (Some (JsString "late")); Microtask]
         loaded_world)
    = [NextN Sent;
       NextN (Response {| resp_body := JsString "late"; resp_status := 200;
                          resp_statusText := "OK"; resp_url := search_url |});
       CompleteN]
  ∧ emitted_by 0
      (run [Request search_request; LoadEvent 0;
            ScriptCalls "ng_jsonp_callback_0" (Some (JsNumber 7)); Microtask]
         initial_world)
    = [NextN Sent;
       NextN (Response {| resp_body := JsNumber 7; resp_status := 200;
                          resp_statusText := "OK"; resp_url := search_url |});
       CompleteN].
Proof.
  split; [|split].
  - exact (proj1 decision_after_one_microtask sent_world 0
             (new_exchange "ng_jsonp_callback_0" search_url) eq_refl).
  - exact (proj1 (proj2 decision_after_one_microtask) loaded_world 0 []
             (new_exchange "ng_jsonp_callback_0" search_url)
             "ng_jsonp_callback_0" (Some (JsString "late"))
             eq_refl eq_refl eq_refl eq_refl).
  - exact (proj2 (proj2 (proj2 decision_after_one_microtask) search_request initial_world
                    (Some (JsNumber 7)) eq_refl eq_refl eq_refl eq_refl)).
Defined.

(** C3. [handle] throws exactly when the request breaks a precondition:
    the method is tested first, then the response type, then the headers,
    each with its own message; in every throwing case the world is left as
    it was (same counter, same callback map, no script node, nothing
    scheduled), and no observable is returned. A request that passes the
    three tests gets an observable and, again, an unchanged world. *)
Theorem handle_preconditions (req : HttpRequest) (w : World) :
  (method req ≠ "JSONP" →
     handle req w = (inl (ThrowError "JSONP requests must use JSONP request method."), w)
     ∧ step (Request req) w = w)
  ∧ (method req = "JSONP" → responseType req ≠ "json" →
     handle req w = (inl (ThrowError "JSONP requests must use Json response type."), w)
     ∧ step (Request req) w = w)
  ∧ (method req = "JSONP" → responseType req = "json" → headers req ≠ [] →
     handle req w = (inl (ThrowError "JSONP requests do not support headers."), w)
     ∧ step (Request req) w = w)
  ∧ (method req = "JSONP" → responseType req = "json" → headers req = [] →
     handle req w = (inr {| observed := req |}, w))
  ∧ ((∃ msg, (handle req w).1 = inl (ThrowError msg))
     ↔ (method req ≠ "JSONP" ∨ responseType req ≠ "json" ∨ headers req ≠ [])).
Proof.
  assert (Hstep : ∀ t, handle req w = (inl t, w) → step (Request req) w = w).
  { intros t Ht. simpl. by rewrite Ht. }
  assert (H1 : method req ≠ "JSONP" →
    handle req w = (inl (ThrowError "JSONP requests must use JSONP request method."), w)).
  { intros Hm. unfold handle. by rewrite bool_decide_eq_false_2. }
  assert (H2 : method req = "JSONP" → responseType req ≠ "json" →
    handle req w = (inl (ThrowError "JSONP requests must use Json response type."), w)).
  { intros Hm Hr. unfold handle.
    by rewrite bool_decide_eq_true_2, bool_decide_eq_false_2. }
  assert (H3 : method req = "JSONP" → responseType req = "json" → headers req ≠ [] →
    handle req w = (inl (ThrowError "JSONP requests do not support headers."), w)).
  { intros Hm Hr Hh. unfold handle.
    rewrite !bool_decide_eq_true_2 by done.
    destruct (headers req); [done | reflexivity]. }
  repeat split; eauto using handle_accepts.
  - intros [msg Hmsg].
    destruct (decide (method req = "JSONP")) as [Hm|Hm]; [|by left].
    destruct (decide (responseType req = "json")) as [Hr|Hr]; [|by right; left].
    destruct (decide (headers req = [])) as [Hh|Hh]; [|by right; right].
    rewrite (handle_accepts _ _ Hm Hr Hh) in Hmsg. discriminate Hmsg.
  - intros Hbad.
    destruct (decide (method req = "JSONP")) as [Hm|Hm]; [|rewrite H1 by done; eauto].
    destruct (decide (responseType req = "json")) as [Hr|Hr]; [|rewrite H2 by done; eauto].
    destruct (decide (headers req = [])) as [Hh|Hh]; [|rewrite H3 by done; eauto].
    destruct Hbad as [?|[?|?]]; done.
Qed.

Lemma handle_preconditions_witness :
  (handle get_request initial_world
     = (inl (ThrowError "JSONP requests must use JSONP request method."), initial_world)
   ∧ step (Request get_request) initial_world = initial_world)
  ∧ (handle text_request initial_world
     = (inl (ThrowError "JSONP requests must use Json response type."), initial_world)
   ∧ step (Request text_request) initial_world = initial_world)
  ∧ (handle header_request initial_world
     = (inl (ThrowError "JSONP requests do not support headers."), initial_world)
   ∧ step (Request header_request) initial_world = initial_world)
  ∧ handle search_request initial_world
     = (inr {| observed := search_request |}, initial_world).
Proof.
  split; [|split; [|split]].
  - apply (handle_preconditions get_request initial_world). discriminate.
  - apply (handle_preconditions text_request initial_world);
      [reflexivity | discriminate].
  - apply (handle_preconditions header_request initial_world);
      [reflexivity | reflexivity | discriminate].
  - apply (handle_preconditions search_request initial_world); reflexivity.
Defined.

(** C4. One [Sent], then one terminal event. Subscribing a valid request
    delivers [Sent] within the subscription itself. In every run from the
    initial world, what an exchange has delivered is [Sent] alone, or
    [Sent] and one error, or [Sent], one response and the completion; and
    as long as the subscriber is open it is [Sent] alone. After the
    consumer has unsubscribed nothing is delivered any more, whatever
    happens next (callback, load, error, microtasks, other requests): the
    exchange has delivered for ever what it had delivered before. And the
    terminal event does come: for an exchange of a run whose subscriber is
    open, an error event, or the deferred check when it runs, or a load
    event followed by the microtasks queued up to it, leaves the exchange
    with [Sent] followed by the one terminal event of that path, and
    whatever happens later adds nothing to it. *)
Theorem one_sent_then_one_terminal :
  (∀ req w,
     method req = "JSONP" → responseType req = "json" → headers req = [] →
     emitted_by (length (exchanges w)) (step (Request req) w) = [NextN Sent])
  ∧ (∀ tr e x,
       exchanges (run tr initial_world) !! e = Some x →
       (emitted x = [NextN Sent]
        ∨ (∃ err, emitted x = [NextN Sent; ErrorN err])
        ∨ (∃ r, emitted x = [NextN Sent; NextN (Response r); CompleteN]))
       ∧ (closed x = false → emitted x = [NextN Sent]))
  ∧ (∀ tr w e x,
       exchanges w !! e = Some x →
       emitted_by e (run tr (step (Unsubscribe e) w)) = emitted x)
  ∧ (∀ tr later e x,
       exchanges (run tr initial_world) !! e = Some x → closed x = false →
       (∀ error,
          emitted_by e (run (ErrorEvent e error :: later) (run tr initial_world))
          = [NextN Sent; ErrorN (load_error error x)])
       ∧ (∀ q,
            microtasks (run tr initial_world) = e :: q →
            emitted_by e (run (Microtask :: later) (run tr initial_world))
            = NextN Sent ::
              (if finished x
               then [NextN (Response (ok_response x)); CompleteN]
               else [ErrorN (no_callback_error x)]))
       ∧ emitted_by e
           (run (LoadEvent e
                 :: replicate (S (length (microtasks (run tr initial_world)))) Microtask
                 ++ later)
              (run tr initial_world))
         = NextN Sent ::
           (if finished x
            then [NextN (Response (ok_response x)); CompleteN]
            else [ErrorN (no_callback_error x)])).
Proof.
  split; [|split; [|split]].
  - intros req w Hm Hr Hh. rewrite step_Request_valid by done.
    unfold emitted_by. simpl. by rewrite list_lookup_middle.
  - intros tr e x Hx.
    destruct (run_ok tr _ initial_world_ok e x Hx) as [Hlive Hshape].
    split; [exact Hshape | intros Hc; by destruct (Hlive Hc)].
  - intros tr w e x Hx.
    assert (∃ y, exchanges (step (Unsubscribe e) w) !! e = Some y
                 ∧ closed y = true ∧ emitted y = emitted x) as (y & Hy & Hcy & Hey).
    { destruct (closed x) eqn:Hc.
      - exists x. simpl. rewrite unsubscribe_closed; [done|].
        by rewrite (is_closed_Some _ _ _ Hx).
      - destruct (unsubscribe_event e w x Hx Hc) as (y & Hy & Hcy & _ & _ & _ & Hey).
        by exists y. }
    destruct (closed_frozen tr _ e y Hy Hcy) as (z & Hz & _ & Hez).
    rewrite (emitted_by_Some _ _ _ Hz). congruence.
  - intros tr later e x Hx Hc. set (w := run tr initial_world) in *.
    destruct (run_ok tr _ initial_world_ok e x Hx) as [Hlive _].
    destruct (Hlive Hc) as [Hsent _].
    split; [|split].
    + intros error. rewrite run_cons.
      destruct (error_event e error w x Hx Hc) as (y & Hy & Hcy & _ & _ & _ & Hey).
      destruct (closed_frozen later _ e y Hy Hcy) as (z & Hz & _ & Hez).
      by rewrite (emitted_by_Some _ _ _ Hz), Hez, Hey, Hsent.
    + intros q Hq. rewrite run_cons.
      destruct (deferred_check e q w x Hx Hc Hq) as (y & Hy & Hcy & _ & _ & Hey).
      destruct (closed_frozen later _ e y Hy Hcy) as (z & Hz & _ & Hez).
      by rewrite (emitted_by_Some _ _ _ Hz), Hez, Hey, Hsent.
    + rewrite run_cons, run_app, (step_LoadEvent _ _ _ Hx).
      set (w1 := with_microtasks _ w).
      assert (exchanges w1 !! e = Some x) as Hx1 by exact Hx.
      destruct (drain_microtasks (microtasks w ++ [e]) w1 e x eq_refl) as
        (y & Hy & Hcy & Hey);
        [apply elem_of_app; right; by apply list_elem_of_singleton | done | done |].
      rewrite length_app, Nat.add_1_r in Hy.
      destruct (closed_frozen later _ e y Hy Hcy) as (z & Hz & _ & Hez).
      by rewrite (emitted_by_Some _ _ _ Hz), Hez, Hey, Hsent.
Qed.

Lemma one_sent_then_one_terminal_witness :
  emitted_by 0 (step (Request search_request) initial_world) = [NextN Sent]
  ∧ emitted_by 0
      (run [ScriptCalls "ng_jsonp_callback_0" (Some (JsString "hi"));
            LoadEvent 0; Microtask; ErrorEvent 0 (JsDomEvent "error")]
         (step (Unsubscribe 0) sent_world))
    = [NextN Sent]
  ∧ (emitted answered_exchange = [NextN Sent]
     ∨ (∃ err, emitted answered_exchange = [NextN Sent; ErrorN err])
     ∨ (∃ r, emitted answered_exchange = [NextN Sent; NextN (Response r); CompleteN]))
  ∧ emitted_by 0
      (run [ErrorEvent 0 (JsDomEvent "error"); LoadEvent 0; Microtask]
         (run [Request search_request] initial_world))
    = [NextN Sent;
       ErrorN {| err_error := JsDomEvent "error"; err_status := 0;
                 err_statusText := "JSONP Error"; err_url := search_url |}]
  ∧ emitted_by 0
      (run [Microtask; ErrorEvent 0 (JsDomEvent "error"); Unsubscribe 0]
         (run [Request search_request; LoadEvent 0] initial_world))
    = [NextN Sent;
       ErrorN {| err_error :=
                   JsErrorObject "JSONP injected script did not invoke callback.";
                 err_status := 0; err_statusText := "JSONP Error";
                 err_url := search_url |}]
  ∧ emitted_by 0
      (run [LoadEvent 0; Microtask; Microtask; ErrorEvent 0 (JsDomEvent "error")]
         (run [Request search_request;
               ScriptCalls "ng_jsonp_callback_0" (Some (JsString "hi"));
               Request plain_request; LoadEvent 1] initial_world))
    = [NextN Sent;
       NextN (Response {| resp_body := JsString "hi"; resp_status := 200;
                          resp_statusText := "OK"; resp_url := search_url |});
       CompleteN].
Proof.
  split; [|split; [|split; [|split; [|split]]]].
  - exact (proj1 one_sent_then_one_terminal search_request initial_world
             eq_refl eq_refl eq_refl).
  - exact (proj1 (proj2 (proj2 one_sent_then_one_terminal))
             [ScriptCalls "ng_jsonp_callback_0" (Some (JsString "hi"));
              LoadEvent 0; Microtask; ErrorEvent 0 (JsDomEvent "error")]
             sent_world 0 (new_exchange "ng_jsonp_callback_0" search_url) eq_refl).
  - exact (proj1 (proj1 (proj2 one_sent_then_one_terminal)
             [Request search_request;
              ScriptCalls "ng_jsonp_callback_0" (Some (JsString "hi"))]
             0 answered_exchange eq_refl)).
  - exact (proj1 (proj2 (proj2 (proj2 one_sent_then_one_terminal))
             [Request search_request] [LoadEvent 0; Microtask] 0
             (new_exchange "ng_jsonp_callback_0" search_url) eq_refl eq_refl)
             (JsDomEvent "error")).
  - exact (proj1 (proj2 (proj2 (proj2 (proj2 one_sent_then_one_terminal))
             [Request search_request; LoadEvent 0]
             [ErrorEvent 0 (JsDomEvent "error"); Unsubscribe 0] 0
             (new_exchange "ng_jsonp_callback_0" search_url) eq_refl eq_refl))
             [] eq_refl).
  - exact (proj2 (proj2 (proj2 (proj2 (proj2 one_sent_then_one_terminal))
             [Request search_request;
              ScriptCalls "ng_jsonp_callback_0" (Some (JsString "hi"));
              Request plain_request; LoadEvent 1]
             [ErrorEvent 0 (JsDomEvent "error")] 0 answered_exchange
             eq_refl eq_refl))).
Defined.

(** C5. Cleanup, and where it runs. Cleanup is idempotent. For an
    existing exchange it deletes the exchange's callback name from the
    callback map (a name that is not there stays absent, other names are
    not touched) and takes the script node off the page (a node that is
    not on the page is left as it is). Each of the three ways a live
    exchange ends, the deferred check after a load, the error handler, and
    the unsubscription, leaves the subscriber closed, no entry under the
    exchange's callback name, and the node off the page. *)
Theorem cleanup_on_every_termination :
  (∀ e w, cleanup e (cleanup e w) = cleanup e w)
  ∧ (∀ e w x,
       exchanges w !! e = Some x →
       callbackMap (cleanup e w) = delete (callback x) (callbackMap w)
       ∧ callbackMap (cleanup e w) !! callback x = None
       ∧ ∃ x', exchanges (cleanup e w) !! e = Some x'
               ∧ parentNode (node x') = None
               ∧ (parentNode (node x) = None → x' = x))
  ∧ (∀ e w x q,
       exchanges w !! e = Some x → closed x = false → microtasks w = e :: q →
       callbackMap (step Microtask w) !! callback x = None
       ∧ ∃ x', exchanges (step Microtask w) !! e = Some x'
               ∧ closed x' = true ∧ parentNode (node x') = None)
  ∧ (∀ e w x error,
       exchanges w !! e = Some x → closed x = false →
       callbackMap (step (ErrorEvent e error) w) !! callback x = None
       ∧ ∃ x', exchanges (step (ErrorEvent e error) w) !! e = Some x'
               ∧ closed x' = true ∧ parentNode (node x') = None)
  ∧ (∀ e w x,
       exchanges w !! e = Some x → closed x = false →
       callbackMap (step (Unsubscribe e) w) !! callback x = None
       ∧ ∃ x', exchanges (step (Unsubscribe e) w) !! e = Some x'
               ∧ closed x' = true ∧ parentNode (node x') = None).
Proof.
  split; [exact cleanup_twice | split; [|split; [|split]]].
  - intros e w x Hx. rewrite (cleanup_Some _ _ _ Hx).
    split; [done | split; [apply lookup_delete_eq|]].
    exists (cleaned x). split; [by apply (lookup_set_exchange_eq _ _ x)|].
    split; [apply parentNode_remove_if_attached | apply cleaned_detached].
  - intros e w x q Hx Hc Hq.
    destruct (deferred_check e q w x Hx Hc Hq) as (x' & Hx' & Hcl & Hp & Hcb & _).
    split; [done | by exists x'].
  - intros e w x error Hx Hc.
    destruct (error_event e error w x Hx Hc) as (x' & Hx' & Hcl & Hp & Hcb & _).
    split; [done | by exists x'].
  - intros e w x Hx Hc.
    destruct (unsubscribe_event e w x Hx Hc) as (x' & Hx' & Hcl & Hp & _ & Hcb & _).
    split; [done | by exists x'].
Qed.

Lemma cleanup_on_every_termination_witness :
  callbackMap (cleanup 0 fifth_world) !! "ng_jsonp_callback_5" = None
  ∧ callbackMap (step Microtask loaded_world) !! "ng_jsonp_callback_0" = None
  ∧ callbackMap (step (ErrorEvent 0 (JsDomEvent "error")) sent_world)
      !! "ng_jsonp_callback_0" = None
  ∧ callbackMap (step (Unsubscribe 0) sent_world) !! "ng_jsonp_callback_0" = None.
Proof.
  split; [|split; [|split]].
  - exact (proj1 (proj2 (proj1 (proj2 cleanup_on_every_termination) 0 fifth_world
             (new_exchange "ng_jsonp_callback_5"
                "https://api.example/search?q=cats&cb=ng_jsonp_callback_5&fmt=json")
             eq_refl))).
  - exact (proj1 (proj1 (proj2 (proj2 cleanup_on_every_termination)) 0 loaded_world
             (new_exchange "ng_jsonp_callback_0" search_url) [] eq_refl eq_refl eq_refl)).
  - exact (proj1 (proj1 (proj2 (proj2 (proj2 cleanup_on_every_termination))) 0 sent_world
             (new_exchange "ng_jsonp_callback_0" search_url) (JsDomEvent "error")
             eq_refl eq_refl)).
  - exact (proj1 (proj2 (proj2 (proj2 (proj2 cleanup_on_every_termination))) 0 sent_world
             (new_exchange "ng_jsonp_callback_0" search_url) eq_refl eq_refl)).
Defined.

(** C6. A load error is handled at once. For a live exchange the error
    handler runs cleanup (the callback name leaves the callback map, the
    script node leaves the page), schedules no microtask, and delivers an
    error response that carries the error it was given, status 0, status
    text [JSONP Error] and the rewritten URL. Nothing in this depends on
    the flag: the run in which the script first calls the callback and the
    browser then reports an error ends in the error, not in a response. *)
Theorem load_error_outcome :
  (∀ w e x error,
     exchanges w !! e = Some x → closed x = false →
     ∃ x', exchanges (step (ErrorEvent e error) w) !! e = Some x'
           ∧ emitted x'
             = emitted x ++
               [ErrorN {| err_error := error; err_status := 0;
                          err_statusText := "JSONP Error"; err_url := url x |}]
           ∧ closed x' = true
           ∧ parentNode (node x') = None
           ∧ callbackMap (step (ErrorEvent e error) w) !! callback x = None
           ∧ microtasks (step (ErrorEvent e error) w) = microtasks w)
  ∧ (∀ req w arg error,
       method req = "JSONP" → responseType req = "json" → headers req = [] →
       microtasks w = [] →
       emitted_by (length (exchanges w))
         (run [Request req;
               ScriptCalls ("ng_jsonp_callback_" +:+ pretty (nextRequestId w)) arg;
               ErrorEvent (length (exchanges w)) error] w)
       = [NextN Sent;
          ErrorN
            {| err_error := error; err_status := 0; err_statusText := "JSONP Error";
               err_url :=
                 replace_placeholder ("ng_jsonp_callback_" +:+ pretty (nextRequestId w))
                   (urlWithParams req) |}]).
Proof.
  split.
  - intros w e x error Hx Hc.
    destruct (error_event e error w x Hx Hc) as (x' & Hx' & Hcl & Hp & Hcb & Hq & Hem).
    exists x'. by repeat split.
  - intros req w arg error Hm Hr Hh Hq.
    exact (run_callback_then_error req w Hm Hr Hh Hq arg error).
Qed.

Lemma load_error_outcome_witness :
  (∃ x', exchanges (step (ErrorEvent 0 (JsDomEvent "error")) sent_world) !! 0 = Some x'
         ∧ emitted x'
           = [NextN Sent;
              ErrorN {| err_error := JsDomEvent "error"; err_status := 0;
                        err_statusText := "JSONP Error"; err_url := search_url |}]
         ∧ microtasks (step (ErrorEvent 0 (JsDomEvent "error")) sent_world) = [])
  ∧ emitted_by 0
      (run [Request search_request;
            ScriptCalls "ng_jsonp_callback_0" (Some (JsString "hi"));
            ErrorEvent 0 (JsDomEvent "error")] initial_world)
    = [NextN Sent;
       ErrorN {| err_error := JsDomEvent "error"; err_status := 0;
                 err_statusText := "JSONP Error"; err_url := search_url |}].
Proof.
  split.
  - destruct (proj1 load_error_outcome sent_world 0
                (new_exchange "ng_jsonp_callback_0" search_url) (JsDomEvent "error")
                eq_refl eq_refl) as (x' & Hx' & Hem & _ & _ & _ & Hq).
    exists x'. split; [exact Hx' | split; [exact Hem | exact Hq]].
  - exact (proj2 load_error_outcome search_request initial_world
             (Some (JsString "hi")) (JsDomEvent "error")
             eq_refl eq_refl eq_refl eq_refl).
Defined.

(** C7. The rewrite of the URL is exact. Where the placeholder (the text
    [=JSONP_CALLBACK] followed by an ampersand or by the end of the URL)
    first stands, it is replaced by [=], the callback name and the same
    delimiter; what precedes and what follows is kept as it is, later
    placeholders included. A URL without a placeholder is returned
    unchanged. Either way the accepted request goes on: its exchange is
    created with the rewritten URL as its [url] and as the [src] of its
    script node, attached to the page, with [Sent] delivered. *)
Theorem url_rewrite_exact (cb s : string) :
  (∀ pre delim post,
     placeholder_at pre delim post s →
     (∀ pre' delim' post', placeholder_at pre' delim' post' s →
        String.length pre ≤ String.length pre') →
     replace_placeholder cb s = pre +:+ "=" +:+ cb +:+ delim +:+ post)
  ∧ ((∀ pre delim post, ¬ placeholder_at pre delim post s) →
     replace_placeholder cb s = s)
  ∧ (∀ req w,
       method req = "JSONP" → responseType req = "json" → headers req = [] →
       urlWithParams req = s → (nextCallback w).1 = cb →
       exchanges (step (Request req) w) !! length (exchanges w)
       = Some {| callback := cb; url := replace_placeholder cb s;
                 node := {| src := replace_placeholder cb s; parentNode := Some Body;
                            ownerDocument := MainDocument |};
                 body := JsNull; finished := false; closed := false;
                 emitted := [NextN Sent] |}).
Proof.
  split; [|split].
  - intros pre delim post Hat Hfirst. by apply replace_placeholder_at.
  - apply replace_placeholder_absent.
  - intros req w Hm Hr Hh <- <-.
    rewrite (step_Request_accepted _ _ Hm Hr Hh), subscribe_eq. simpl.
    by rewrite list_lookup_middle.
Qed.

Lemma url_rewrite_exact_witness :
  replace_placeholder "c7" ".../x?cb=JSONP_CALLBACK&y=1" = ".../x?cb=c7&y=1"
  ∧ replace_placeholder "c7" "/feed?limit=3" = "/feed?limit=3"
  ∧ exchanges (step (Request plain_request) initial_world) !! 0
    = Some {| callback := "ng_jsonp_callback_0"; url := "/feed?limit=3";
              node := {| src := "/feed?limit=3"; parentNode := Some Body;
                         ownerDocument := MainDocument |};
              body := JsNull; finished := false; closed := false;
              emitted := [NextN Sent] |}.
Proof.
  split; [|split].
  - destruct (find_placeholder_Some ".../x?cb=JSONP_CALLBACK&y=1" ".../x?cb" "&" "y=1"
                eq_refl) as [Hat Hfirst].
    exact (proj1 (url_rewrite_exact "c7" ".../x?cb=JSONP_CALLBACK&y=1")
             ".../x?cb" "&" "y=1" Hat Hfirst).
  - apply (proj1 (proj2 (url_rewrite_exact "c7" "/feed?limit=3"))).
    by apply find_placeholder_None.
  - exact (proj2 (proj2 (url_rewrite_exact "ng_jsonp_callback_0" "/feed?limit=3"))
             plain_request initial_world eq_refl eq_refl eq_refl eq_refl eq_refl).
Defined.

(** C8, as the code has it. While the counter is below [2^53] an
    allocation returns [ng_jsonp_callback_] followed by the decimal value
    of the counter and adds one to the counter. So in a run from the
    initial world that has started at most [2^53] exchanges, the exchange
    started [i]-th (counting from 0) carries the name with number [i], and
    no two exchanges carry the same name, whatever happened between their
    subscriptions. *)
Theorem callback_identifiers_unique_below_limit :
  (∀ w, (nextRequestId w < MAX_EXACT)%N →
     nextCallback w
     = ("ng_jsonp_callback_" +:+ pretty (nextRequestId w),
        with_nextRequestId (nextRequestId w + 1)%N w))
  ∧ (∀ tr,
       (N.of_nat (length (exchanges (run tr initial_world))) ≤ MAX_EXACT)%N →
       (∀ i x, exchanges (run tr initial_world) !! i = Some x →
          callback x = "ng_jsonp_callback_" +:+ pretty (N.of_nat i))
       ∧ (∀ i j x y,
            exchanges (run tr initial_world) !! i = Some x →
            exchanges (run tr initial_world) !! j = Some y →
            callback x = callback y → i = j)).
Proof.
  split.
  - intros w Hn. unfold nextCallback. by rewrite js_increment_exact.
  - intros tr Hlen.
    destruct (run_names_ok tr _ initial_names_ok) as [_ Hcb].
    assert (Hname : ∀ i x, exchanges (run tr initial_world) !! i = Some x →
              callback x = callback_name (N.of_nat i)).
    { intros i x Hx. rewrite (Hcb _ _ Hx). f_equal.
      apply lookup_lt_Some in Hx. lia. }
    split; [exact Hname|].
    intros i j x y Hx Hy Heq.
    rewrite (Hname _ _ Hx), (Hname _ _ Hy) in Heq.
    apply callback_name_inj in Heq. lia.
Qed.

Lemma callback_identifiers_unique_below_limit_witness :
  nextCallback initial_world
  = ("ng_jsonp_callback_0", with_nextRequestId 1 initial_world)
  ∧ ∀ i j x y,
      exchanges (run [Request search_request; Request plain_request] initial_world) !! i
        = Some x →
      exchanges (run [Request search_request; Request plain_request] initial_world) !! j
        = Some y →
      callback x = callback y → i = j.
Proof.
  split.
  - apply (proj1 callback_identifiers_unique_below_limit initial_world).
    reflexivity.
  - apply (proj2 callback_identifiers_unique_below_limit
             [Request search_request; Request plain_request]).
    vm_compute. discriminate.
Defined.

(** C8, as the claim states it, fails. In the world whose counter is
    [2^53] an allocation leaves the counter where it was and the next
    allocation returns the same name, so two requests subscribed back to
    back from there share their callback name; and from the initial world
    the run of [2^53 + 2] requests ends with two exchanges of one name. *)
Lemma callback_identifier_repeats :
  nextRequestId (nextCallback saturated_world).2 = nextRequestId saturated_world
  ∧ (nextCallback (nextCallback saturated_world).2).1 = (nextCallback saturated_world).1
  ∧ (∃ x y,
       exchanges (run [Request search_request; Request search_request] saturated_world) !! 0
         = Some x
       ∧ exchanges (run [Request search_request; Request search_request] saturated_world) !! 1
         = Some y
       ∧ callback x = callback y)
  ∧ (∃ i j x y,
       i ≠ j
       ∧ exchanges (run (replicate (N.to_nat MAX_EXACT + 2) (Request search_request))
                      initial_world) !! i = Some x
       ∧ exchanges (run (replicate (N.to_nat MAX_EXACT + 2) (Request search_request))
                      initial_world) !! j = Some y
       ∧ callback x = callback y).
Proof.
  split; [reflexivity | split; [reflexivity | split]].
  - cbn [run foldl].
    rewrite !step_Request_valid by reflexivity.
    do 2 eexists. split; [reflexivity | split; reflexivity].
  - exact (names_repeat_after (N.to_nat MAX_EXACT) (N2Nat.id MAX_EXACT)).
Qed.

(** C9. What unsubscribing does to the script node. In a run from the
    initial world, unsubscribing from a live exchange leaves its node off
    the page, and owned by the foreign document exactly when the callback
    had not run; when the callback had run the node stays with the main
    document and the unsubscription is cleanup and nothing else, the
    foreign document being neither created nor read. The foreign document
    is created at most once in a run, and once it exists it is the one
    every later unsubscription uses. It is created lazily: in every run,
    either no foreign document has been created and no exchange has ended
    before its callback ran, or one has been created and some exchange
    has so ended; so subscriptions, answers, loads and the cancellation of
    answered exchanges never create it. And in every run the nodes owned
    by the foreign document are those of the exchanges that have ended
    before their callback ran, all others being owned by the main
    document. *)
Theorem foreign_document_on_unsubscribe :
  (∀ tr e x,
     exchanges (run tr initial_world) !! e = Some x → closed x = false →
     ∃ x', exchanges (step (Unsubscribe e) (run tr initial_world)) !! e = Some x'
           ∧ parentNode (node x') = None
           ∧ ownerDocument (node x')
             = (if finished x then MainDocument else CreatedDocument 0)
           ∧ (finished x = false →
                foreignDocument (step (Unsubscribe e) (run tr initial_world))
                = Some (CreatedDocument 0))
           ∧ (finished x = true →
                step (Unsubscribe e) (run tr initial_world)
                = cleanup e (update_exchange e close (run tr initial_world))))
  ∧ (∀ tr, documentsCreated (run tr initial_world) ≤ 1)
  ∧ (∀ tr w d,
       foreignDocument w = Some d →
       foreignDocument (run tr w) = Some d
       ∧ documentsCreated (run tr w) = documentsCreated w)
  ∧ (∀ tr,
       (foreignDocument (run tr initial_world) = None
        ∧ documentsCreated (run tr initial_world) = 0
        ∧ ∀ e x, exchanges (run tr initial_world) !! e = Some x →
            closed x = true → finished x = true)
       ∨ (foreignDocument (run tr initial_world) = Some (CreatedDocument 0)
          ∧ documentsCreated (run tr initial_world) = 1
          ∧ ∃ e x, exchanges (run tr initial_world) !! e = Some x
                   ∧ closed x = true ∧ finished x = false))
  ∧ (∀ tr e x,
       exchanges (run tr initial_world) !! e = Some x →
       ownerDocument (node x)
       = if closed x && negb (finished x) then CreatedDocument 0 else MainDocument).
Proof.
  split; [|split; [|split; [|split]]].
  - intros tr e x Hx Hc. set (w := run tr initial_world) in *.
    destruct (run_ok tr _ initial_world_ok e x Hx) as [Hlive _].
    destruct (Hlive Hc) as [_ Hnode].
    assert (the_foreign_document w = CreatedDocument 0) as Hdoc.
    { unfold the_foreign_document. subst w.
      destruct (run_documents_ok tr _ initial_documents_ok) as [[Hf Hd] | [Hf _]];
        rewrite Hf; [by rewrite Hd | done]. }
    destruct (unsubscribe_event e w x Hx Hc) as (x' & Hx' & _ & Hp & Ho & _ & _).
    exists x'. split; [done | split; [done | split; [|split]]].
    + rewrite Ho, Hdoc, Hnode. done.
    + intros Hf. change (step (Unsubscribe e) w) with (unsubscribe e w).
      rewrite (unsubscribe_live _ _ _ Hx Hc). unfold after_cancel. simpl. rewrite Hf.
      simpl. by rewrite foreignDocument_ensure, Hdoc.
    + intros Hf. change (step (Unsubscribe e) w) with (unsubscribe e w).
      unfold unsubscribe. rewrite (is_closed_Some _ _ _ Hx), Hc.
      unfold cancel. rewrite (update_exchange_Some _ _ _ _ Hx).
      rewrite (lookup_set_exchange_eq _ _ _ _ Hx). simpl. by rewrite Hf.
  - intros tr.
    destruct (run_documents_ok tr _ initial_documents_ok) as [[_ ->] | [_ ->]]; lia.
  - intros tr w d Hd. by apply foreignDocument_kept.
  - intros tr. destruct (run_adoption_ok tr) as [_ Hdoc].
    destruct (run_documents_ok tr _ initial_documents_ok) as [[Hf Hd] | [Hf Hd]];
      destruct Hdoc as [[Hn Hall] | (Hs & e & x & Hx & Hended)]; try congruence.
    + left. split; [done | split; [done|]]. intros e x Hx Hc.
      pose proof (Hall e x Hx) as Hended. unfold ended_unanswered in Hended.
      rewrite Hc in Hended. by destruct (finished x).
    + right. split; [done | split; [done|]]. exists e, x.
      unfold ended_unanswered in Hended. apply andb_true_iff in Hended as [Hc Hnf].
      split; [done | split; [done|]]. by destruct (finished x).
  - intros tr e x Hx. destruct (run_adoption_ok tr) as [Hown _].
    exact (Hown e x Hx).
Qed.

Lemma foreign_document_on_unsubscribe_witness :
  (∃ x', exchanges (step (Unsubscribe 0) sent_world) !! 0 = Some x'
         ∧ ownerDocument (node x') = CreatedDocument 0)
  ∧ (∃ x', exchanges
             (step (Unsubscribe 0)
                (run [Request search_request;
                      ScriptCalls "ng_jsonp_callback_0" (Some (JsString "hi"))]
                   initial_world)) !! 0 = Some x'
           ∧ ownerDocument (node x') = MainDocument)
  ∧ (foreignDocument (run [Request plain_request; Unsubscribe 1] cancelled_world)
     = Some (CreatedDocument 0)
     ∧ documentsCreated (run [Request plain_request; Unsubscribe 1] cancelled_world) = 1)
  ∧ foreignDocument
      (run [Request search_request;
            ScriptCalls "ng_jsonp_callback_0" (Some (JsString "hi"));
            Request plain_request; LoadEvent 0; Microtask; Unsubscribe 0]
         initial_world) = None
  ∧ ownerDocument
      (node {| callback := "ng_jsonp_callback_0"; url := search_url;
               node := {| src := search_url; parentNode := None;
                          ownerDocument := CreatedDocument 0 |};
               body := JsNull; finished := false; closed := true;
               emitted := [NextN Sent;
                           ErrorN {| err_error := JsDomEvent "error"; err_status := 0;
                                     err_statusText := "JSONP Error";
                                     err_url := search_url |}] |})
    = CreatedDocument 0.
Proof.
  split; [|split; [|split; [|split]]].
  - destruct (proj1 foreign_document_on_unsubscribe [Request search_request] 0
                (new_exchange "ng_jsonp_callback_0" search_url) eq_refl eq_refl)
      as (x' & Hx' & _ & Ho & _).
    exists x'. split; [exact Hx' | exact Ho].
  - destruct (proj1 foreign_document_on_unsubscribe
                [Request search_request;
                 ScriptCalls "ng_jsonp_callback_0" (Some (JsString "hi"))]
                0 answered_exchange eq_refl eq_refl)
      as (x' & Hx' & _ & Ho & _).
    exists x'. split; [exact Hx' | exact Ho].
  - exact (proj1 (proj2 (proj2 foreign_document_on_unsubscribe))
             [Request plain_request; Unsubscribe 1] cancelled_world (CreatedDocument 0)
             eq_refl).
  - destruct (proj1 (proj2 (proj2 (proj2 foreign_document_on_unsubscribe)))
                [Request search_request;
                 ScriptCalls "ng_jsonp_callback_0" (Some (JsString "hi"));
                 Request plain_request; LoadEvent 0; Microtask; Unsubscribe 0])
      as [[Hnone _] | [Hsome _]]; [exact Hnone | discriminate Hsome].
  - exact (proj2 (proj2 (proj2 (proj2 foreign_document_on_unsubscribe)))
             [Request search_request; ErrorEvent 0 (JsDomEvent "error")] 0 _ eq_refl).
Defined.

(** C10. Both failure paths give the error response the status text
    [JSONP Error]: the deferred check of a live exchange whose callback has
    not run, and the error handler of a live exchange. *)
Theorem failure_status_text :
  (∀ w e q x,
     exchanges w !! e = Some x → closed x = false → finished x = false →
     microtasks w = e :: q →
     ∃ err, emitted_by e (step Microtask w) = emitted x ++ [ErrorN err]
            ∧ err_statusText err = "JSONP Error")
  ∧ (∀ w e x error,
       exchanges w !! e = Some x → closed x = false →
       ∃ err, emitted_by e (step (ErrorEvent e error) w) = emitted x ++ [ErrorN err]
              ∧ err_statusText err = "JSONP Error").
Proof.
  split.
  - intros w e q x Hx Hc Hf Hq.
    destruct (deferred_check e q w x Hx Hc Hq) as (x' & Hx' & _ & _ & _ & Hem).
    rewrite Hf in Hem. exists (no_callback_error x).
    by rewrite (emitted_by_Some _ _ _ Hx'), Hem.
  - intros w e x error Hx Hc.
    destruct (error_event e error w x Hx Hc) as (x' & Hx' & _ & _ & _ & _ & Hem).
    exists (load_error error x).
    by rewrite (emitted_by_Some _ _ _ Hx'), Hem.
Qed.

Lemma failure_status_text_witness :
  (∃ err, emitted_by 0 (step Microtask loaded_world) = [NextN Sent; ErrorN err]
          ∧ err_statusText err = "JSONP Error")
  ∧ (∃ err, emitted_by 0 (step (ErrorEvent 0 (JsDomEvent "error")) sent_world)
            = [NextN Sent; ErrorN err]
            ∧ err_statusText err = "JSONP Error").
Proof.
  split.
  - exact (proj1 failure_status_text loaded_world 0 []
             (new_exchange "ng_jsonp_callback_0" search_url)
             eq_refl eq_refl eq_refl eq_refl).
  - exact (proj2 failure_status_text sent_world 0
             (new_exchange "ng_jsonp_callback_0" search_url) (JsDomEvent "error")
             eq_refl eq_refl).
Defined.


(** * Further properties of the backend *)

Lemma src_remove_if_attached (nd : ScriptNode) :
  src (remove_if_attached nd) = src nd.
Proof. unfold remove_if_attached. by destruct (parentNode nd). Qed.

Lemma exchange_ended_cancelled (doc : Document) (x y : Exchange) :
  callback y = callback x → url y = url x →
  remove_if_attached (node y) = remove_if_attached (node x) →
  finished y = finished x → body y = body x → closed y = true →
  exchange_ended x (if finished y then cleaned y else adopted doc y).
Proof.
  intros Hcb Hu Hn Hf Hb Hc.
  assert (src (node y) = src (node x)) as Hsrc
    by (rewrite <- (src_remove_if_attached (node y)), Hn; apply src_remove_if_attached).
  destruct (finished y) eqn:Hfy.
  - split; [done | split; [done | split]].
    + simpl. by rewrite Hn, src_remove_if_attached.
    + split; [done | split; [apply parentNode_remove_if_attached|]].
      split; [by rewrite <- Hf | split; [done|]]. left. simpl.
      by rewrite Hn, ownerDocument_remove_if_attached.
  - split; [done | split; [done | split; [done|]]].
    split; [done | split; [done|]].
    split; [by rewrite <- Hf | split; [done|]]. right. congruence.
Qed.

Lemma exchange_ended_cleaned (x : Exchange) :
  closed x = true → exchange_ended x (cleaned x).
Proof.
  intros Hc. split; [done | split; [done | split]].
  - simpl. unfold remove_if_attached. by destruct (parentNode (node x)).
  - split; [done | split; [apply parentNode_remove_if_attached|]].
    split; [done | split; [done|]]. left. simpl.
    apply ownerDocument_remove_if_attached.
Qed.

(** One input that is no request leaves the exchanges and the callback map
    alone, or rewrites one exchange and deletes that exchange's name: a
    registered callback stores its answer, or an exchange ends. *)
Lemma step_touches_one (i : Input) (w : World) :
  (∀ req, i ≠ Request req) →
  (exchanges (step i w) = exchanges w ∧ callbackMap (step i w) = callbackMap w)
  ∨ ∃ e x y,
      exchanges w !! e = Some x
      ∧ exchanges (step i w) = <[e := y]> (exchanges w)
      ∧ callbackMap (step i w) = delete (callback x) (callbackMap w)
      ∧ ((∃ data name, y = with_received data x ∧ callbackMap w !! name = Some e)
         ∨ exchange_ended x y).
Proof.
  intros Hreq. destruct i as [req|name arg|e|e error| |e]; simpl.
  - by destruct (Hreq req).
  - destruct (callbackMap w !! name) as [e|] eqn:Hn; [|by left].
    destruct (exchanges w !! e) as [x|] eqn:Hx.
    + right. exists e, x, (with_received (js_arg arg) x).
      rewrite (response_callback_Some _ _ _ _ Hx).
      split; [done | split; [done | split; [done|]]].
      left. by exists (js_arg arg), name.
    + left. unfold response_callback. by rewrite Hx.
  - left. by destruct (exchanges w !! e).
  - destruct (exchanges w !! e) as [x|] eqn:Hx.
    + right. exists e, x. destruct (closed x) eqn:Hc.
      * exists (cleaned x). rewrite (onError_closed _ _ _ _ Hx Hc).
        split; [done | split; [done | split; [done|]]].
        right. by apply exchange_ended_cleaned.
      * rewrite (onError_live _ _ _ _ Hx Hc). eexists.
        split; [done | split; [by rewrite exchanges_after_cancel | split]].
        -- rewrite callbackMap_after_cancel. simpl. apply delete_delete_eq.
        -- right. apply exchange_ended_cancelled; try done.
           apply remove_if_attached_twice.
    + left. by rewrite (onError_None _ _ _ Hx).
  - destruct (microtasks w) as [|e q]; [by left|].
    destruct (exchanges w !! e) as [x|] eqn:Hx.
    + assert (exchanges (with_microtasks q w) !! e = Some x) as Hx0 by exact Hx.
      right. exists e, x. destruct (closed x) eqn:Hc.
      * exists (cleaned x). rewrite (onLoad_deferred_closed _ _ _ Hx0 Hc).
        split; [done | split; [done | split; [done|]]].
        right. by apply exchange_ended_cleaned.
      * rewrite (onLoad_deferred_live _ _ _ Hx0 Hc). eexists.
        split; [done | split; [by rewrite exchanges_after_cancel | split]].
        -- rewrite callbackMap_after_cancel.
           assert (∀ z, callback (close z) = callback z) as -> by done.
           destruct (finished x); simpl; apply delete_delete_eq.
        -- right. destruct (finished x) eqn:Hf;
             apply exchange_ended_cancelled; try done; apply remove_if_attached_twice.
    + left. by rewrite onLoad_deferred_None.
  - destruct (exchanges w !! e) as [x|] eqn:Hx.
    + destruct (closed x) eqn:Hc.
      * left. rewrite unsubscribe_closed; [done|]. by rewrite (is_closed_Some _ _ _ Hx).
      * right. exists e, x. rewrite (unsubscribe_live _ _ _ Hx Hc). eexists.
        split; [done | split; [by rewrite exchanges_after_cancel | split]].
        -- by rewrite callbackMap_after_cancel.
        -- right. by apply exchange_ended_cancelled.
    + left. rewrite unsubscribe_closed; [done|]. unfold is_closed. by rewrite Hx.
Qed.

Lemma new_exchange_node_ok (cb u : string) : node_ok (new_exchange cb u).
Proof. split; [done | split; [done|]]. simpl. congruence. Qed.

Lemma step_page_ok (i : Input) (w : World) :
  registry_ok w → page_ok w → page_ok (step i w).
Proof.
  intros Hreg Hok. destruct (input_cases i) as [[req ->]|Hnr].
  - destruct (step_Request req w) as [-> | ->]; [done|].
    intros e x'. simpl. rewrite lookup_app_Some.
    intros [Hx | [_ Hx]]; [by eapply Hok|].
    destruct (e - length (exchanges w)) as [|k]; simpl in Hx; [|by destruct k].
    injection Hx as <-. apply new_exchange_node_ok.
  - destruct (step_touches_one i w Hnr) as [[Hex _] | (e & x & y & Hx & Hex & _ & Hy)].
    + intros e' x'. rewrite Hex. apply Hok.
    + intros e' x'. rewrite Hex, list_lookup_insert_Some.
      intros [(<- & <- & _) | [_ Hx']]; [|by eapply Hok].
      destruct (Hok _ _ Hx) as (Hsrc & Hdet & Hown).
      destruct Hy as [(data & name & -> & Hn) | (Hcb & Hu & Hs & Hc & Hp & Hf & _ & Ho)].
      * destruct (Hreg _ _ Hn) as (x0 & Hx0 & _ & Hlive & _).
        assert (x0 = x) as -> by congruence.
        split; [done | split; [simpl; congruence|]].
        simpl. intros Hne. destruct (Hown Hne). congruence.
      * split; [congruence | split; [done|]].
        intros Hne. split; [done|]. rewrite Hf.
        destruct Ho as [Ho | Ho]; [|done].
        rewrite Ho in Hne. by destruct (Hown Hne).
Qed.

Lemma run_page_ok (tr : list Input) : page_ok (run tr initial_world).
Proof.
  induction tr as [|i tr IH] using rev_ind.
  - intros e x Hx. simpl in Hx. by rewrite lookup_nil in Hx.
  - rewrite run_snoc. apply step_page_ok; [|done].
    apply run_registry_ok, initial_registry_ok.
Qed.

Lemma step_length (i : Input) (w : World) :
  length (exchanges w) ≤ length (exchanges (step i w)).
Proof.
  destruct (input_cases i) as [[req ->]|Hnr].
  - destruct (step_Request req w) as [-> | ->]; [done|].
    simpl. rewrite length_app. lia.
  - destruct (step_evolves i w Hnr) as (_ & -> & _). done.
Qed.

Lemma names_differ (w : World) (e e' : nat) (x x' : Exchange) :
  names_ok w → (N.of_nat (length (exchanges w)) ≤ MAX_EXACT)%N →
  exchanges w !! e = Some x → exchanges w !! e' = Some x' → e ≠ e' →
  callback x ≠ callback x'.
Proof.
  intros [_ Hn] Hlen Hx Hx' Hne Heq.
  rewrite (Hn _ _ Hx), (Hn _ _ Hx') in Heq. apply callback_name_inj in Heq.
  apply lookup_lt_Some in Hx, Hx'. lia.
Qed.

Lemma step_pending_registered (i : Input) (w : World) :
  names_ok w → (N.of_nat (length (exchanges (step i w))) ≤ MAX_EXACT)%N →
  pending_registered w → pending_registered (step i w).
Proof.
  intros Hnames Hlen Hok.
  assert (N.of_nat (length (exchanges w)) ≤ MAX_EXACT)%N as Hlen0
    by (pose proof (step_length i w); lia).
  destruct (input_cases i) as [[req ->]|Hnr].
  - destruct (step_Request req w) as [Heq | Heq]; rewrite Heq in *; [done|].
    intros e x'. simpl. rewrite lookup_app_Some.
    intros [Hx | [Hge Hx]] Hc Hf.
    + rewrite lookup_insert_ne; [by apply Hok|].
      destruct Hnames as [Hcnt Hn]. rewrite (Hn _ _ Hx), Hcnt.
      intros Heq'. apply callback_name_inj in Heq'.
      apply lookup_lt_Some in Hx. simpl in Hlen. rewrite length_app in Hlen.
      simpl in Hlen. lia.
    + destruct (e - length (exchanges w)) as [|k] eqn:Hk; simpl in Hx; [|by destruct k].
      injection Hx as <-. simpl. rewrite lookup_insert_eq. f_equal. lia.
  - destruct (step_touches_one i w Hnr) as [[Hex Hcm] | (e & x & y & Hx & Hex & Hcm & Hy)].
    + intros e' x'. rewrite Hex, Hcm. apply Hok.
    + intros e' x'. rewrite Hex, Hcm, list_lookup_insert_Some.
      intros [(<- & <- & _) | [Hne Hx']] Hc Hf.
      * destruct Hy as [(data & name & -> & _) | (_ & _ & _ & Hcy & _)];
          [discriminate Hf | congruence].
      * rewrite lookup_delete_ne; [by apply Hok|].
        by apply (names_differ w e e').
Qed.

Lemma run_pending_registered (tr : list Input) :
  (N.of_nat (length (exchanges (run tr initial_world))) ≤ MAX_EXACT)%N →
  pending_registered (run tr initial_world).
Proof.
  induction tr as [|i tr IH] using rev_ind.
  - intros _ e x Hx. simpl in Hx. by rewrite lookup_nil in Hx.
  - rewrite run_snoc. intros Hlen.
    apply step_pending_registered; [apply run_names_ok, initial_names_ok | done |].
    apply IH. pose proof (step_length i (run tr initial_world)). lia.
Qed.

(** X1. In every run from the initial world, every entry of the callback
    map, under whatever name, points to an existing exchange that carries
    that name, whose subscriber is open and whose callback has not run:
    the map never keeps a callback of an exchange that has ended or has
    been answered. *)
Theorem callback_map_holds_only_pending (tr : list Input) (name : string) (e : nat) :
  callbackMap (run tr initial_world) !! name = Some e →
  ∃ x, exchanges (run tr initial_world) !! e = Some x
       ∧ callback x = name ∧ closed x = false ∧ finished x = false.
Proof. apply run_registry_ok, initial_registry_ok. Qed.

Lemma callback_map_holds_only_pending_witness :
  ∃ x, exchanges (run [Request search_request; Request plain_request; Unsubscribe 0]
                    initial_world) !! 1 = Some x
       ∧ callback x = "ng_jsonp_callback_1" ∧ closed x = false ∧ finished x = false.
Proof.
  exact (callback_map_holds_only_pending
           [Request search_request; Request plain_request; Unsubscribe 0]
           "ng_jsonp_callback_1" 1 eq_refl).
Defined.

(** X2. In a run that has started at most [2^53] exchanges, the callback
    map tells for every exchange whether it still waits for its answer:
    under the exchange's name it holds the exchange itself as long as the
    subscriber is open and the callback has not run, and nothing once the
    subscriber has closed or the callback has run, at that moment and in
    every later world of the run. *)
Theorem callback_map_tracks_pending (tr : list Input) (e : nat) (x : Exchange) :
  (N.of_nat (length (exchanges (run tr initial_world))) ≤ MAX_EXACT)%N →
  exchanges (run tr initial_world) !! e = Some x →
  callbackMap (run tr initial_world) !! callback x
  = if closed x || finished x then None else Some e.
Proof.
  intros Hlen Hx. destruct (closed x) eqn:Hc; simpl.
  - apply (ended_exchange_unregistered tr e x Hlen Hx). by left.
  - destruct (finished x) eqn:Hf.
    + apply (ended_exchange_unregistered tr e x Hlen Hx). by right.
    + by apply (run_pending_registered tr Hlen).
Qed.

Lemma callback_map_tracks_pending_witness :
  callbackMap (run [Request search_request; Request plain_request; Unsubscribe 0]
                 initial_world) !! "ng_jsonp_callback_0" = None
  ∧ callbackMap (run [Request search_request; Request plain_request; Unsubscribe 0]
                   initial_world) !! "ng_jsonp_callback_1" = Some 1.
Proof.
  split.
  - refine (callback_map_tracks_pending
              [Request search_request; Request plain_request; Unsubscribe 0] 0
              {| callback := "ng_jsonp_callback_0"; url := search_url;
                 node := {| src := search_url; parentNode := None;
                            ownerDocument := CreatedDocument 0 |};
                 body := JsNull; finished := false; closed := true;
                 emitted := [NextN Sent] |} _ eq_refl).
    vm_compute. discriminate.
  - refine (callback_map_tracks_pending
              [Request search_request; Request plain_request; Unsubscribe 0] 1
              (new_exchange "ng_jsonp_callback_1" "/feed?limit=3") _ eq_refl).
    vm_compute. discriminate.
Defined.

(** X3. In a run that has started at most [2^53] exchanges, a script that
    calls the name of an exchange still waiting for its answer reaches
    that exchange: the argument becomes its body and its flag is set,
    its subscriber and what it has delivered are as before, and no other
    exchange is changed. *)
Theorem answer_reaches_its_exchange (tr : list Input) (e : nat) (x : Exchange)
    (arg : option JsValue) :
  (N.of_nat (length (exchanges (run tr initial_world))) ≤ MAX_EXACT)%N →
  exchanges (run tr initial_world) !! e = Some x →
  closed x = false → finished x = false →
  exchanges (step (ScriptCalls (callback x) arg) (run tr initial_world)) !! e
  = Some {| callback := callback x; url := url x; node := node x;
            body := js_arg arg; finished := true;
            closed := false; emitted := emitted x |}
  ∧ ∀ e', e' ≠ e →
      exchanges (step (ScriptCalls (callback x) arg) (run tr initial_world)) !! e'
      = exchanges (run tr initial_world) !! e'.
Proof.
  intros Hlen Hx Hc Hf.
  pose proof (run_pending_registered tr Hlen e x Hx Hc Hf) as Hn.
  rewrite (step_ScriptCalls _ _ _ _ _ Hn Hx).
  set (w0 := with_callbackMap _ _).
  assert (exchanges w0 !! e = Some x) as Hx0 by exact Hx.
  split.
  - rewrite (lookup_set_exchange_eq _ _ _ _ Hx0). unfold with_received. by rewrite Hc.
  - intros e' Hne. by rewrite lookup_set_exchange_ne.
Qed.

Lemma answer_reaches_its_exchange_witness :
  exchanges (step (ScriptCalls "ng_jsonp_callback_1" (Some (JsNumber 3)))
               (run [Request search_request; Request plain_request] initial_world)) !! 1
  = Some {| callback := "ng_jsonp_callback_1"; url := "/feed?limit=3";
            node := {| src := "/feed?limit=3"; parentNode := Some Body;
                       ownerDocument := MainDocument |};
            body := JsNumber 3; finished := true; closed := false;
            emitted := [NextN Sent] |}.
Proof.
  refine (proj1 (answer_reaches_its_exchange
                   [Request search_request; Request plain_request] 1
                   (new_exchange "ng_jsonp_callback_1" "/feed?limit=3")
                   (Some (JsNumber 3)) _ eq_refl eq_refl eq_refl)).
  vm_compute. discriminate.
Defined.

(** X4. A callback runs once. In every run from the initial world, a
    second call under the same name, right after a first one, changes
    nothing: the callback has deleted itself from the callback map, so the
    body stored by the first call is not overwritten. *)
Theorem callback_runs_once (tr : list Input) (name : string) (a1 a2 : option JsValue) :
  step (ScriptCalls name a2) (step (ScriptCalls name a1) (run tr initial_world))
  = step (ScriptCalls name a1) (run tr initial_world).
Proof.
  set (w := run tr initial_world).
  destruct (callbackMap w !! name) as [e|] eqn:Hn.
  - destruct (run_registry_ok tr _ initial_registry_ok _ _ Hn) as (x & Hx & Hcb & _).
    fold w in Hx. rewrite (step_ScriptCalls _ _ _ _ _ Hn Hx).
    simpl. by rewrite Hcb, lookup_delete_eq.
  - assert (step (ScriptCalls name a1) w = w) as -> by (simpl; by rewrite Hn).
    simpl. by rewrite Hn.
Qed.

(** X5. An input changes no exchange but the one it is aimed at: a request
    leaves every existing exchange as it was, and a callback, a load
    event, an error event, a microtask or an unsubscription leaves every
    exchange other than its own as it was, in any world. *)
Theorem other_exchanges_untouched (i : Input) (w : World) (e' : nat) (x' : Exchange) :
  target i w ≠ Some e' → exchanges w !! e' = Some x' →
  exchanges (step i w) !! e' = Some x'.
Proof.
  intros Ht Hx'. destruct i as [req|name arg|e|e error| |e]; simpl in *.
  - destruct (step_Request req w) as [Heq | Heq]; simpl in Heq; rewrite Heq; [done|].
    simpl. by apply lookup_app_l_Some.
  - destruct (callbackMap w !! name) as [e|]; [|done].
    destruct (exchanges w !! e) as [x|] eqn:Hx.
    + rewrite (response_callback_Some _ _ _ _ Hx), lookup_set_exchange_ne; [done|congruence].
    + unfold response_callback. by rewrite Hx.
  - by destruct (exchanges w !! e).
  - destruct (exchanges w !! e) as [x|] eqn:Hx; [|by rewrite onError_None].
    destruct (closed x) eqn:Hc.
    + rewrite (onError_closed _ _ _ _ Hx Hc), lookup_set_exchange_ne; [done|congruence].
    + rewrite (onError_live _ _ _ _ Hx Hc), lookup_after_cancel_ne; [done|congruence].
  - destruct (microtasks w) as [|e q]; [done|]. simpl in Ht.
    destruct (exchanges w !! e) as [x|] eqn:Hx; [|by rewrite onLoad_deferred_None].
    assert (exchanges (with_microtasks q w) !! e = Some x) as Hx0 by exact Hx.
    destruct (closed x) eqn:Hc.
    + rewrite (onLoad_deferred_closed _ _ _ Hx0 Hc), lookup_set_exchange_ne;
        [done|congruence].
    + rewrite (onLoad_deferred_live _ _ _ Hx0 Hc), lookup_after_cancel_ne;
        [done|congruence].
  - destruct (exchanges w !! e) as [x|] eqn:Hx.
    + destruct (closed x) eqn:Hc.
      * rewrite unsubscribe_closed; [done|]. by rewrite (is_closed_Some _ _ _ Hx).
      * rewrite (unsubscribe_live _ _ _ Hx Hc), lookup_after_cancel_ne; [done|congruence].
    + rewrite unsubscribe_closed; [done|]. unfold is_closed. by rewrite Hx.
Qed.

Lemma other_exchanges_untouched_witness :
  exchanges (step (ErrorEvent 0 (JsDomEvent "error"))
               (run [Request search_request; Request plain_request] initial_world)) !! 1
  = Some (new_exchange "ng_jsonp_callback_1" "/feed?limit=3").
Proof.
  refine (other_exchanges_untouched (ErrorEvent 0 (JsDomEvent "error"))
            (run [Request search_request; Request plain_request] initial_world) 1
            (new_exchange "ng_jsonp_callback_1" "/feed?limit=3") _ eq_refl).
  simpl. discriminate.
Defined.

(** X6. No script node is left behind. In every run from the initial
    world the script node of an exchange has the exchange's rewritten URL
    as its [src], is a child of the body as long as the subscriber is
    open, and is off the page once the subscriber has closed. *)
Theorem script_nodes_follow_subscribers (tr : list Input) (e : nat) (x : Exchange) :
  exchanges (run tr initial_world) !! e = Some x →
  src (node x) = url x
  ∧ parentNode (node x) = (if closed x then None else Some Body).
Proof.
  intros Hx. destruct (run_page_ok tr e x Hx) as (Hsrc & Hdet & _).
  split; [done|]. destruct (closed x) eqn:Hc; [by apply Hdet|].
  destruct (run_ok tr _ initial_world_ok e x Hx) as [Hlive _].
  destruct (Hlive Hc) as [_ ->]. done.
Qed.

Lemma script_nodes_follow_subscribers_witness :
  parentNode (node answered_exchange) = Some Body.
Proof.
  exact (proj2 (script_nodes_follow_subscribers
                  [Request search_request;
                   ScriptCalls "ng_jsonp_callback_0" (Some (JsString "hi"))]
                  0 answered_exchange eq_refl)).
Defined.

(** X7. In every run from the initial world, a script node that is no
    longer owned by the main document belongs to an exchange whose
    subscriber has closed and whose callback never ran: the node of an
    exchange that got its answer is never moved to the foreign document. *)
Theorem answered_nodes_stay_in_main_document (tr : list Input) (e : nat) (x : Exchange) :
  exchanges (run tr initial_world) !! e = Some x →
  (ownerDocument (node x) ≠ MainDocument → closed x = true ∧ finished x = false)
  ∧ (finished x = true → ownerDocument (node x) = MainDocument).
Proof.
  intros Hx. destruct (run_page_ok tr e x Hx) as (_ & _ & Hown).
  split; [done|]. intros Hf.
  destruct (ownerDocument (node x)) eqn:Ho; [done|].
  destruct Hown; congruence.
Qed.

Lemma answered_nodes_stay_in_main_document_witness :
  closed {| callback := "ng_jsonp_callback_0"; url := search_url;
            node := {| src := search_url; parentNode := None;
                       ownerDocument := CreatedDocument 0 |};
            body := JsNull; finished := false; closed := true;
            emitted := [NextN Sent] |} = true
  ∧ finished {| callback := "ng_jsonp_callback_0"; url := search_url;
                node := {| src := search_url; parentNode := None;
                           ownerDocument := CreatedDocument 0 |};
                body := JsNull; finished := false; closed := true;
                emitted := [NextN Sent] |} = false.
Proof.
  refine (proj1 (answered_nodes_stay_in_main_document
                   [Request search_request; Unsubscribe 0] 0
                   {| callback := "ng_jsonp_callback_0"; url := search_url;
                      node := {| src := search_url; parentNode := None;
                                 ownerDocument := CreatedDocument 0 |};
                      body := JsNull; finished := false; closed := true;
                      emitted := [NextN Sent] |} eq_refl) _).
  simpl. discriminate.
Defined.

(** X8. The counter counts the accepted requests. In every run from the
    initial world [nextRequestId] is the number of exchanges started so
    far, capped at [2^53]: a rejected request, a callback, a load or error
    event, a microtask and an unsubscription never use up a name. *)
Theorem counter_counts_exchanges (tr : list Input) :
  nextRequestId (run tr initial_world)
  = N.min (N.of_nat (length (exchanges (run tr initial_world)))) MAX_EXACT.
Proof. apply run_names_ok, initial_names_ok. Qed.

Lemma cleaned_off_page (x : Exchange) :
  parentNode (node x) = None → cleaned x = x.
Proof.
  intros Hp. destruct x as [cb u nd b f c em]. simpl in Hp.
  unfold cleaned, with_node, remove_if_attached. simpl. by rewrite Hp.
Qed.

Lemma step_closed_final (i : Input) (w : World) (e : nat) (x : Exchange) :
  registry_ok w → page_ok w →
  exchanges w !! e = Some x → closed x = true →
  exchanges (step i w) !! e = Some x.
Proof.
  intros Hreg Hpage Hx Hc.
  assert (cleaned x = x) as Hclean
    by (apply cleaned_off_page; by apply (Hpage e x Hx)).
  destruct i as [req|name arg|e0|e0 error| |e0]; simpl.
  - destruct (step_Request req w) as [Heq | Heq]; simpl in Heq; rewrite Heq; [done|].
    simpl. by apply lookup_app_l_Some.
  - destruct (callbackMap w !! name) as [e0|] eqn:Hn; [|done].
    destruct (Hreg _ _ Hn) as (x0 & Hx0 & _ & Hlive & _).
    rewrite (response_callback_Some _ _ _ _ Hx0), lookup_set_exchange_ne; [done|].
    intros ->. congruence.
  - by destruct (exchanges w !! e0).
  - destruct (decide (e0 = e)) as [->|Hne].
    + rewrite (onError_closed _ _ _ _ Hx Hc), Hclean.
      by rewrite (lookup_set_exchange_eq _ _ x).
    + destruct (exchanges w !! e0) as [x0|] eqn:Hx0; [|by rewrite onError_None].
      destruct (closed x0) eqn:Hc0.
      * by rewrite (onError_closed _ _ _ _ Hx0 Hc0), lookup_set_exchange_ne.
      * by rewrite (onError_live _ _ _ _ Hx0 Hc0), lookup_after_cancel_ne.
  - destruct (microtasks w) as [|e0 q]; [done|].
    destruct (decide (e0 = e)) as [->|Hne].
    + assert (exchanges (with_microtasks q w) !! e = Some x) as Hxq by exact Hx.
      rewrite (onLoad_deferred_closed _ _ _ Hxq Hc), Hclean.
      by rewrite (lookup_set_exchange_eq _ _ x).
    + destruct (exchanges w !! e0) as [x0|] eqn:Hx0; [|by rewrite onLoad_deferred_None].
      assert (exchanges (with_microtasks q w) !! e0 = Some x0) as Hxq by exact Hx0.
      destruct (closed x0) eqn:Hc0.
      * by rewrite (onLoad_deferred_closed _ _ _ Hxq Hc0), lookup_set_exchange_ne.
      * by rewrite (onLoad_deferred_live _ _ _ Hxq Hc0), lookup_after_cancel_ne.
  - destruct (exchanges w !! e0) as [x0|] eqn:Hx0.
    + destruct (closed x0) eqn:Hc0.
      * rewrite unsubscribe_closed; [done|]. by rewrite (is_closed_Some _ _ _ Hx0).
      * rewrite (unsubscribe_live _ _ _ Hx0 Hc0), lookup_after_cancel_ne; [done|].
        intros ->. congruence.
    + rewrite unsubscribe_closed; [done|]. unfold is_closed. by rewrite Hx0.
Qed.

(** X9. A closed exchange is final. In every run from the initial world,
    once the subscriber of an exchange has closed, by an error, by
    completion or by unsubscription, nothing that happens later changes
    the exchange: not its body, not its script node, not what its consumer
    has received. A late call of its callback, a late load or error event,
    a second unsubscription and every later request leave it as it is. *)
Theorem closed_exchange_is_final (tr later : list Input) (e : nat) (x : Exchange) :
  exchanges (run tr initial_world) !! e = Some x → closed x = true →
  exchanges (run (tr ++ later) initial_world) !! e = Some x.
Proof.
  intros Hx Hc. induction later as [|i later IH] using rev_ind.
  - by rewrite app_nil_r.
  - rewrite app_assoc, run_snoc.
    apply step_closed_final; [| |done|done].
    + apply run_registry_ok, initial_registry_ok.
    + apply run_page_ok.
Qed.

Lemma closed_exchange_is_final_witness :
  exchanges (run ([Request search_request; Unsubscribe 0]
                  ++ [ScriptCalls "ng_jsonp_callback_0" (Some (JsString "late"));
                      LoadEvent 0; Microtask; ErrorEvent 0 (JsDomEvent "error");
                      Unsubscribe 0; Request plain_request]) initial_world) !! 0
  = Some {| callback := "ng_jsonp_callback_0"; url := search_url;
            node := {| src := search_url; parentNode := None;
                       ownerDocument := CreatedDocument 0 |};
            body := JsNull; finished := false; closed := true;
            emitted := [NextN Sent] |}.
Proof.
  exact (closed_exchange_is_final [Request search_request; Unsubscribe 0]
           [ScriptCalls "ng_jsonp_callback_0" (Some (JsString "late"));
            LoadEvent 0; Microtask; ErrorEvent 0 (JsDomEvent "error");
            Unsubscribe 0; Request plain_request] 0 _ eq_refl eq_refl).
Defined.

(** * The interceptor in front of the backend *)

(** X10. Through [jsonpInterceptorFn] the backend is never asked to handle
    a request of another method: a request whose method is not [JSONP]
    goes to [next] as it is, and a [JSONP] request gets what [handle]
    gives, which is then never the wrong-method error. Whatever the
    request, the world is left as it was. *)
Theorem jsonp_interceptor_routes {R : Type} (req : HttpRequest) (next : HttpRequest → R)
    (w : World) :
  (jsonpInterceptorFn req next w).2 = w
  ∧ (jsonpInterceptorFn req next w).1
    ≠ inl (ThrowError "JSONP requests must use JSONP request method.")
  ∧ (method req ≠ "JSONP" →
     (jsonpInterceptorFn req next w).1 = inr (inr (next req)))
  ∧ (method req = "JSONP" → responseType req = "json" → headers req = [] →
     (jsonpInterceptorFn req next w).1 = inr (inl {| observed := req |}))
  ∧ (method req = "JSONP" → responseType req ≠ "json" →
     (jsonpInterceptorFn req next w).1
     = inl (ThrowError "JSONP requests must use Json response type."))
  ∧ (method req = "JSONP" → responseType req = "json" → headers req ≠ [] →
     (jsonpInterceptorFn req next w).1
     = inl (ThrowError "JSONP requests do not support headers.")).
Proof.
  unfold jsonpInterceptorFn, handle.
  destruct (decide (method req = "JSONP")) as [Hm|Hm].
  - rewrite !(bool_decide_eq_true_2 _ Hm). simpl.
    destruct (decide (responseType req = "json")) as [Hr|Hr].
    + rewrite (bool_decide_eq_true_2 _ Hr). simpl.
      destruct (headers req) as [|h hs] eqn:Hh; simpl;
        repeat split; try done; intros; congruence.
    + rewrite (bool_decide_eq_false_2 _ Hr). simpl.
      repeat split; try done; intros; congruence.
  - rewrite (bool_decide_eq_false_2 _ Hm). simpl.
    repeat split; try done; intros; congruence.
Qed.

Lemma jsonp_interceptor_routes_witness :
  (jsonpInterceptorFn get_request (fun r => urlWithParams r) initial_world).1
  = inr (inr "/x")
  ∧ (jsonpInterceptorFn search_request (fun r => urlWithParams r) initial_world).1
    = inr (inl {| observed := search_request |})
  ∧ (jsonpInterceptorFn text_request (fun r => urlWithParams r) initial_world).1
    = inl (ThrowError "JSONP requests must use Json response type.")
  ∧ (jsonpInterceptorFn header_request (fun r => urlWithParams r) initial_world).1
    = inl (ThrowError "JSONP requests do not support headers.").
Proof.
  split; [|split; [|split]].
  - apply (jsonp_interceptor_routes get_request (fun r => urlWithParams r) initial_world).
    discriminate.
  - apply (jsonp_interceptor_routes search_request (fun r => urlWithParams r)
             initial_world); reflexivity.
  - apply (jsonp_interceptor_routes text_request (fun r => urlWithParams r)
             initial_world); [reflexivity | discriminate].
  - apply (jsonp_interceptor_routes header_request (fun r => urlWithParams r)
             initial_world); [reflexivity | reflexivity | discriminate].
Defined.

(** * The XSRF token extractor *)

Lemma getToken_server `{Xsrf.CookieParser} (x : Xsrf.HttpXsrfCookieExtractor) :
  Xsrf.platform x = "server" → Xsrf.getToken x = (None, x).
Proof. intros Hp. unfold Xsrf.getToken. by rewrite bool_decide_eq_true_2. Qed.

Lemma getToken_hit `{Xsrf.CookieParser} (x : Xsrf.HttpXsrfCookieExtractor) :
  Xsrf.platform x ≠ "server" → Xsrf.cookieString x = Xsrf.lastCookieString x →
  Xsrf.getToken x = (Xsrf.lastToken x, x).
Proof.
  intros Hp Hc. unfold Xsrf.getToken.
  by rewrite (bool_decide_eq_false_2 _ Hp), (bool_decide_eq_true_2 _ Hc).
Qed.

Lemma getToken_miss `{Xsrf.CookieParser} (x : Xsrf.HttpXsrfCookieExtractor) :
  Xsrf.platform x ≠ "server" → Xsrf.cookieString x ≠ Xsrf.lastCookieString x →
  Xsrf.getToken x
  = (Xsrf.parseCookieValue (Xsrf.cookieString x) (Xsrf.cookieName x),
     {| Xsrf.doc_cookie := Xsrf.doc_cookie x; Xsrf.platform := Xsrf.platform x;
        Xsrf.cookieName := Xsrf.cookieName x;
        Xsrf.parseCount := js_increment (Xsrf.parseCount x);
        Xsrf.lastToken := Xsrf.parseCookieValue (Xsrf.cookieString x) (Xsrf.cookieName x);
        Xsrf.lastCookieString := Xsrf.cookieString x |}).
Proof.
  intros Hp Hc. unfold Xsrf.getToken.
  by rewrite (bool_decide_eq_false_2 _ Hp), (bool_decide_eq_false_2 _ Hc).
Qed.

Lemma getToken_lastToken `{Xsrf.CookieParser} (x : Xsrf.HttpXsrfCookieExtractor) :
  Xsrf.platform x ≠ "server" →
  (Xsrf.getToken x).1 = Xsrf.lastToken (Xsrf.getToken x).2.
Proof.
  intros Hp.
  destruct (decide (Xsrf.cookieString x = Xsrf.lastCookieString x)) as [Hc|Hc].
  - by rewrite (getToken_hit x Hp Hc).
  - by rewrite (getToken_miss x Hp Hc).
Qed.

Lemma getToken_twice `{Xsrf.CookieParser} (x : Xsrf.HttpXsrfCookieExtractor) :
  Xsrf.getToken (Xsrf.getToken x).2 = Xsrf.getToken x.
Proof.
  destruct (decide (Xsrf.platform x = "server")) as [Hp|Hp].
  - rewrite (getToken_server x Hp). simpl. by apply getToken_server.
  - destruct (decide (Xsrf.cookieString x = Xsrf.lastCookieString x)) as [Hc|Hc].
    + rewrite (getToken_hit x Hp Hc). simpl. by apply getToken_hit.
    + rewrite (getToken_miss x Hp Hc). simpl. by rewrite getToken_hit.
Qed.

(** X11. The extractor caches. A second [getToken], with the cookie of the
    document unchanged, returns the token of the first and leaves the
    extractor as the first left it: the cookie string is not parsed again
    and [parseCount] does not move. *)
Theorem getToken_cached `{Xsrf.CookieParser} (x : Xsrf.HttpXsrfCookieExtractor) :
  (Xsrf.getToken (Xsrf.getToken x).2).1 = (Xsrf.getToken x).1
  ∧ (Xsrf.getToken (Xsrf.getToken x).2).2 = (Xsrf.getToken x).2
  ∧ Xsrf.parseCount (Xsrf.getToken (Xsrf.getToken x).2).2
    = Xsrf.parseCount (Xsrf.getToken x).2.
Proof. rewrite getToken_twice. done. Qed.

Lemma reads_snoc `{Xsrf.CookieParser} (cs : list (option string)) (c : option string)
    (x : Xsrf.HttpXsrfCookieExtractor) :
  reads (cs ++ [c]) x = (read c (reads cs x)).2.
Proof. unfold reads. by rewrite foldl_snoc. Qed.

Lemma last_seen_snoc (cs : list (option string)) (c : option string) :
  last_seen (cs ++ [c]) = seen c.
Proof. unfold last_seen. by rewrite foldl_snoc. Qed.

Lemma all_empty_snoc (cs : list (option string)) (c : option string) :
  all_empty (cs ++ [c]) = all_empty cs && bool_decide (seen c = "").
Proof. unfold all_empty. rewrite forallb_app. simpl. by rewrite andb_true_r. Qed.

Lemma all_empty_last_seen (cs : list (option string)) :
  all_empty cs = true → last_seen cs = "".
Proof.
  induction cs as [|c cs IH] using rev_ind; [done|].
  rewrite all_empty_snoc, last_seen_snoc. intros Ha.
  apply andb_true_iff in Ha as [_ Hc]. by apply bool_decide_eq_true_1 in Hc.
Qed.

Lemma reads_server `{Xsrf.CookieParser} (cs : list (option string))
    (x : Xsrf.HttpXsrfCookieExtractor) :
  Xsrf.platform x = "server" →
  reads cs x = Xsrf.with_cookie (default (Xsrf.doc_cookie x) (last cs)) x.
Proof.
  intros Hp. induction cs as [|c cs IH] using rev_ind; [by destruct x|].
  rewrite reads_snoc, IH. unfold read.
  rewrite getToken_server by done. simpl. by rewrite last_snoc.
Qed.

Lemma reads_state `{Xsrf.CookieParser} (cs : list (option string))
    (cookie : option string) (platform name : string) :
  platform ≠ "server" →
  Xsrf.platform (reads cs (Xsrf.new_extractor cookie platform name)) = platform
  ∧ Xsrf.cookieName (reads cs (Xsrf.new_extractor cookie platform name)) = name
  ∧ Xsrf.lastCookieString (reads cs (Xsrf.new_extractor cookie platform name))
    = last_seen cs
  ∧ Xsrf.lastToken (reads cs (Xsrf.new_extractor cookie platform name))
    = if all_empty cs then None else Xsrf.parseCookieValue (last_seen cs) name.
Proof.
  intros Hp. induction cs as [|c cs IH] using rev_ind; [done|].
  destruct IH as (Hpl & Hn & Hl & Ht).
  rewrite reads_snoc, last_seen_snoc, all_empty_snoc. unfold read.
  set (x := reads cs _) in *. set (x1 := Xsrf.with_cookie c x).
  assert (Xsrf.platform x1 ≠ "server") as Hp1 by (simpl; congruence).
  destruct (decide (seen c = last_seen cs)) as [Hc|Hc].
  - rewrite (getToken_hit x1 Hp1)
      by (change (seen c = Xsrf.lastCookieString x); congruence). simpl.
    split; [done | split; [done | split; [congruence|]]].
    rewrite Ht. destruct (all_empty cs) eqn:Ha; simpl; [|by rewrite Hc].
    rewrite Hc, (all_empty_last_seen cs Ha). done.
  - rewrite (getToken_miss x1 Hp1)
      by (change (seen c ≠ Xsrf.lastCookieString x); congruence). simpl.
    split; [done | split; [done | split; [done|]]].
    change (Xsrf.cookieString x1) with (seen c). rewrite Hn.
    destruct (all_empty cs) eqn:Ha; simpl; [|done].
    rewrite (all_empty_last_seen cs Ha) in Hc.
    by rewrite (bool_decide_eq_false_2 _ Hc).
Qed.

(** X12. What [getToken] returns, over any history. Start from a new
    extractor; let the page set the cookie and the extractor read it any
    number of times; then let the page set the cookie to [c] and read
    once more. On the server the token is [null]. Elsewhere it is
    [parseCookieValue] of the cookie string of this last read and the
    cookie name, except that it is [null] as long as every read so far,
    this one included, saw the empty string (a missing cookie counts as
    empty): the cache never serves the token of an older cookie. *)
Theorem getToken_follows_cookie `{Xsrf.CookieParser} (cs : list (option string))
    (c cookie : option string) (platform name : string) :
  (read c (reads cs (Xsrf.new_extractor cookie platform name))).1
  = if bool_decide (platform = "server") then None
    else if all_empty (cs ++ [c]) then None
    else Xsrf.parseCookieValue (seen c) name.
Proof.
  destruct (decide (platform = "server")) as [Hp|Hp].
  - rewrite (bool_decide_eq_true_2 _ Hp), reads_server by done.
    unfold read. by rewrite getToken_server.
  - rewrite (bool_decide_eq_false_2 _ Hp).
    destruct (reads_state (cs ++ [c]) cookie platform name Hp) as (_ & _ & _ & Ht).
    destruct (reads_state cs cookie platform name Hp) as (Hpl & _).
    rewrite reads_snoc, last_seen_snoc in Ht. rewrite <- Ht.
    unfold read. apply getToken_lastToken. simpl. congruence.
Qed.

Lemma reads_parseCount `{Xsrf.CookieParser} (cs : list (option string))
    (x : Xsrf.HttpXsrfCookieExtractor) :
  Xsrf.platform x ≠ "server" → (Xsrf.parseCount x ≤ MAX_EXACT)%N →
  Xsrf.parseCount (reads cs x)
  = N.min (Xsrf.parseCount x + N.of_nat (changes (Xsrf.lastCookieString x) cs)) MAX_EXACT.
Proof.
  revert x. induction cs as [|c cs IH]; intros x Hp Hle; [simpl; lia|].
  change (reads (c :: cs) x) with (reads cs (read c x).2). unfold read.
  set (x1 := Xsrf.with_cookie c x).
  assert (Xsrf.platform x1 ≠ "server") as Hp1 by done.
  simpl changes.
  destruct (decide (seen c = Xsrf.lastCookieString x)) as [Hc|Hc].
  - rewrite (getToken_hit x1 Hp1) by done. simpl.
    rewrite IH by done. simpl. rewrite (bool_decide_eq_true_2 _ Hc), Hc. done.
  - rewrite (getToken_miss x1 Hp1) by done. simpl.
    rewrite IH; [|done|]; simpl.
    + rewrite (bool_decide_eq_false_2 _ Hc).
      change (Xsrf.cookieString x1) with (seen c).
      destruct (N.lt_ge_cases (Xsrf.parseCount x) MAX_EXACT) as [Hlt|Hge].
      * rewrite js_increment_exact by done. lia.
      * rewrite js_increment_stuck by done. lia.
    + destruct (N.lt_ge_cases (Xsrf.parseCount x) MAX_EXACT) as [Hlt|Hge].
      * rewrite js_increment_exact by done. lia.
      * rewrite js_increment_stuck by done. lia.
Qed.

(** X13. The cookie is parsed only when it has changed. After any history
    of reads on a new extractor outside the server, [parseCount] is the
    number of reads that saw a cookie string different from the one seen
    by the read before (the empty string before the first read), capped
    at [2^53]; on the server it stays 0. *)
Theorem parseCount_counts_changes `{Xsrf.CookieParser} (cs : list (option string))
    (cookie : option string) (platform name : string) :
  Xsrf.parseCount (reads cs (Xsrf.new_extractor cookie platform name))
  = if bool_decide (platform = "server") then 0%N
    else N.min (N.of_nat (changes "" cs)) MAX_EXACT.
Proof.
  destruct (decide (platform = "server")) as [Hp|Hp].
  - by rewrite (bool_decide_eq_true_2 _ Hp), reads_server.
  - rewrite (bool_decide_eq_false_2 _ Hp).
    rewrite reads_parseCount; [done | done | simpl; by compute].
Qed.

(** * The XSRF interceptor *)

#[local] Existing Instance Xsrf.cookie_extractor.

Lemma toLowerCase_app (a b : string) :
  Xsrf.toLowerCase (a +:+ b) = Xsrf.toLowerCase a +:+ Xsrf.toLowerCase b.
Proof.
  induction a as [|c a IH]; [done|].
  change (String c a +:+ b) with (String c (a +:+ b)).
  cbn [Xsrf.toLowerCase]. rewrite IH. done.
Qed.

Lemma toLowerCase_split (u a b : string) :
  Xsrf.toLowerCase u = a +:+ b →
  ∃ p q, u = p +:+ q ∧ Xsrf.toLowerCase p = a ∧ Xsrf.toLowerCase q = b.
Proof.
  revert u. induction a as [|c a IH]; intros u Hu.
  - by exists "", u.
  - destruct u as [|d u]; [discriminate Hu|].
    change (String c a +:+ b) with (String c (a +:+ b)) in Hu.
    cbn [Xsrf.toLowerCase] in Hu. injection Hu as Hd Hu.
    destruct (IH u Hu) as (p & q & -> & Hp & Hq).
    exists (String d p), q. split; [done|]. split; [|done].
    cbn [Xsrf.toLowerCase]. by rewrite Hd, Hp.
Qed.

Lemma startsWith_true (s p : string) :
  Xsrf.startsWith s p = true ↔ ∃ rest, s = p +:+ rest.
Proof.
  unfold Xsrf.startsWith. destruct (strip_prefix p s) as [r|] eqn:Hr.
  - apply strip_prefix_Some in Hr. split; [by exists r | done].
  - split; [done|]. intros [rest Heq]. apply strip_prefix_Some in Heq. congruence.
Qed.

(** A URL is absolute for the interceptor when, letter case aside, it
    begins with [http://] or [https://]. *)
Lemma absolute_url (u : string) :
  Xsrf.startsWith (Xsrf.toLowerCase u) "http://"
  || Xsrf.startsWith (Xsrf.toLowerCase u) "https://" = true
  ↔ ∃ p rest, u = p +:+ rest
      ∧ (Xsrf.toLowerCase p = "http://" ∨ Xsrf.toLowerCase p = "https://").
Proof.
  rewrite orb_true_iff, !startsWith_true. split.
  - intros [[r Hr] | [r Hr]]; apply toLowerCase_split in Hr as (p & q & -> & Hp & _);
      exists p, q; auto.
  - intros (p & rest & -> & [Hp | Hp]); [left | right];
      exists (Xsrf.toLowerCase rest); by rewrite toLowerCase_app, Hp.
Qed.

(** X14. When the interceptor leaves a request alone. If XSRF protection
    is disabled, or the method is [GET] or [HEAD], or the URL begins with
    [http://] or [https://] in any letter case, the request goes to [next]
    as it is and the token extractor is not consulted. In every other case
    the extractor is consulted, once. *)
Theorem xsrf_skips_safe_and_absolute {H S R : Type} `{Xsrf.HttpHeaders H}
    `{Xsrf.HttpXsrfTokenExtractor S} (enabled : bool) (headerName : string)
    (req : Xsrf.HttpRequest H) (next : Xsrf.HttpRequest H → R) (st : S) :
  (enabled = false ∨ Xsrf.method req = "GET" ∨ Xsrf.method req = "HEAD"
   ∨ (∃ p rest, Xsrf.url req = p +:+ rest
        ∧ (Xsrf.toLowerCase p = "http://" ∨ Xsrf.toLowerCase p = "https://")) →
   Xsrf.xsrfInterceptorFn enabled headerName req next st = (next req, st))
  ∧ (¬ (enabled = false ∨ Xsrf.method req = "GET" ∨ Xsrf.method req = "HEAD"
        ∨ (∃ p rest, Xsrf.url req = p +:+ rest
             ∧ (Xsrf.toLowerCase p = "http://" ∨ Xsrf.toLowerCase p = "https://"))) →
     (Xsrf.xsrfInterceptorFn enabled headerName req next st).2 = (Xsrf.extract st).2).
Proof.
  unfold Xsrf.xsrfInterceptorFn.
  pose proof (absolute_url (Xsrf.url req)) as Habs.
  destruct (negb enabled || bool_decide (Xsrf.method req = "GET")
            || bool_decide (Xsrf.method req = "HEAD")
            || Xsrf.startsWith (Xsrf.toLowerCase (Xsrf.url req)) "http://"
            || Xsrf.startsWith (Xsrf.toLowerCase (Xsrf.url req)) "https://") eqn:Hskip.
  - split; [done|]. intros Hno. exfalso. apply Hno.
    rewrite !orb_true_iff in Hskip.
    destruct Hskip as [[[[He | Hg] | Hh] | Hu] | Hu].
    + left. by destruct enabled.
    + right; left. by apply bool_decide_eq_true_1 in Hg.
    + right; right; left. by apply bool_decide_eq_true_1 in Hh.
    + right; right; right. apply Habs. by rewrite Hu.
    + right; right; right. apply Habs. rewrite Hu. apply orb_true_r.
  - rewrite !orb_false_iff in Hskip. destruct Hskip as [[[[He Hg] Hh] Hu1] Hu2].
    split.
    + intros [-> | [Hm | [Hm | Hu]]].
      * discriminate He.
      * by rewrite (bool_decide_eq_true_2 _ Hm) in Hg.
      * by rewrite (bool_decide_eq_true_2 _ Hm) in Hh.
      * apply Habs in Hu. rewrite Hu1, Hu2 in Hu. discriminate Hu.
    + intros _. destruct (Xsrf.extract st) as [[t|] st']; [|done].
      by destruct (negb (Xsrf.has headerName (Xsrf.headers req))).
Qed.

Lemma xsrf_skips_safe_and_absolute_witness :
  @Xsrf.xsrfInterceptorFn _ _ _ list_headers (@Xsrf.cookie_extractor one_cookie_parser)
    true "X-XSRF-TOKEN" absolute_request (fun r => r) browser_extractor
  = (absolute_request, browser_extractor).
Proof.
  apply (@xsrf_skips_safe_and_absolute _ _ _ list_headers
           (@Xsrf.cookie_extractor one_cookie_parser)).
  right; right; right. exists "HtTpS://", "shop.example/api/orders".
  split; [reflexivity | right; reflexivity].
Defined.

(** X15. The interceptor adds one header at most and never overwrites.
    The request that reaches [next] has the method and the URL of the
    request that came in; its headers are those that came in, or those
    with the XSRF header set to the token the extractor returned, and the
    latter only if the incoming headers did not have that header. A
    request that already has the header reaches [next] as it is. *)
Theorem xsrf_never_overwrites {H S R : Type} `{Xsrf.HttpHeaders H}
    `{Xsrf.HttpXsrfTokenExtractor S} (enabled : bool) (headerName : string)
    (req : Xsrf.HttpRequest H) (next : Xsrf.HttpRequest H → R) (st : S) :
  ∃ req',
    (Xsrf.xsrfInterceptorFn enabled headerName req next st).1 = next req'
    ∧ Xsrf.method req' = Xsrf.method req
    ∧ Xsrf.url req' = Xsrf.url req
    ∧ (req' = req
       ∨ ∃ t, (Xsrf.extract st).1 = Some t
              ∧ Xsrf.has headerName (Xsrf.headers req) = false
              ∧ Xsrf.headers req' = Xsrf.set headerName t (Xsrf.headers req))
    ∧ (Xsrf.has headerName (Xsrf.headers req) = true → req' = req).
Proof.
  assert (Hsame : ∀ r : R * S, r.1 = next req →
            ∃ req', r.1 = next req'
              ∧ Xsrf.method req' = Xsrf.method req
              ∧ Xsrf.url req' = Xsrf.url req
              ∧ (req' = req
                 ∨ ∃ t, (Xsrf.extract st).1 = Some t
                        ∧ Xsrf.has headerName (Xsrf.headers req) = false
                        ∧ Xsrf.headers req' = Xsrf.set headerName t (Xsrf.headers req))
              ∧ (Xsrf.has headerName (Xsrf.headers req) = true → req' = req)).
  { intros r Hr. exists req. repeat split; auto. }
  unfold Xsrf.xsrfInterceptorFn.
  destruct (_ || _) eqn:Hskip; [by apply Hsame|].
  destruct (Xsrf.extract st) as [[t|] st'] eqn:He; [|by apply Hsame].
  destruct (Xsrf.has headerName (Xsrf.headers req)) eqn:Hhas; [by apply Hsame|].
  clear Hsame. simpl. eexists. split; [reflexivity|].
  split; [done | split; [done | split]].
  - right. by exists t.
  - discriminate.
Qed.

(** X16. A second pass changes nothing. With the cookie extractor, and
    with headers on which [has] finds what [set] has set, passing the
    request that came out of the interceptor through the interceptor again,
    the cookie of the document unchanged, gives the same request and the
    same extractor: the header is not set twice and the cookie is not
    parsed twice. *)
Theorem xsrf_second_pass_changes_nothing `{Xsrf.CookieParser} {Hdr : Type}
    `{Xsrf.HttpHeaders Hdr} (enabled : bool) (headerName : string)
    (req : Xsrf.HttpRequest Hdr) (x : Xsrf.HttpXsrfCookieExtractor) :
  (∀ name value hs, Xsrf.has name (Xsrf.set name value hs) = true) →
  Xsrf.xsrfInterceptorFn enabled headerName
    (Xsrf.xsrfInterceptorFn enabled headerName req (fun r => r) x).1 (fun r => r)
    (Xsrf.xsrfInterceptorFn enabled headerName req (fun r => r) x).2
  = Xsrf.xsrfInterceptorFn enabled headerName req (fun r => r) x.
Proof.
  intros Hlaw. unfold Xsrf.xsrfInterceptorFn at 2 3 4.
  destruct (negb enabled || bool_decide (Xsrf.method req = "GET")
            || bool_decide (Xsrf.method req = "HEAD")
            || Xsrf.startsWith (Xsrf.toLowerCase (Xsrf.url req)) "http://"
            || Xsrf.startsWith (Xsrf.toLowerCase (Xsrf.url req)) "https://") eqn:Hskip.
  - simpl. unfold Xsrf.xsrfInterceptorFn. by rewrite Hskip.
  - pose proof (getToken_twice x) as Htwice.
    unfold Xsrf.extract, Xsrf.cookie_extractor.
    destruct (Xsrf.getToken x) as [tok x1] eqn:Hget. simpl in Htwice.
    destruct tok as [t|].
    + destruct (Xsrf.has headerName (Xsrf.headers req)) eqn:Hhas; simpl.
      * unfold Xsrf.xsrfInterceptorFn. rewrite Hskip.
        unfold Xsrf.extract, Xsrf.cookie_extractor. by rewrite Htwice, Hhas.
      * unfold Xsrf.xsrfInterceptorFn. simpl. rewrite Hskip.
        unfold Xsrf.extract, Xsrf.cookie_extractor. by rewrite Htwice, Hlaw.
    + simpl. unfold Xsrf.xsrfInterceptorFn. rewrite Hskip.
      unfold Xsrf.extract, Xsrf.cookie_extractor. by rewrite Htwice.
Qed.

Lemma xsrf_second_pass_changes_nothing_witness :
  @Xsrf.xsrfInterceptorFn _ _ _ list_headers (@Xsrf.cookie_extractor one_cookie_parser)
    true "X-XSRF-TOKEN"
    {| Xsrf.method := "POST"; Xsrf.url := "/api/orders";
       Xsrf.headers := [("X-XSRF-TOKEN", "abc"); ("Accept", "application/json")] |}
    (fun r => r)
    (@Xsrf.getToken one_cookie_parser browser_extractor).2
  = ({| Xsrf.method := "POST"; Xsrf.url := "/api/orders";
        Xsrf.headers := [("X-XSRF-TOKEN", "abc"); ("Accept", "application/json")] |},
     (@Xsrf.getToken one_cookie_parser browser_extractor).2).
Proof.
  refine (@xsrf_second_pass_changes_nothing one_cookie_parser _ list_headers
            true "X-XSRF-TOKEN" post_request browser_extractor _).
  intros name value hs. simpl. by rewrite bool_decide_eq_true_2.
Defined.
